(** * Metadata filter expressions: AST, builder, negation and conversion

    A shallow embedding of [langchain-core/src/filter.ts] and of the
    reference dialect [TestFilterExpressionConverter] of
    [langchain-core/src/tests/filter.test.ts], with the properties of the
    negation engine and of the conversion walk proved over it. *)

From Stdlib Require Import String Ascii List ZArith Lia Bool DecimalString.
Import ListNotations.

Local Open Scope string_scope.
Local Open Scope list_scope.

(* ================================================================== *)
(** ** Operand model *)
(* ================================================================== *)

(** [const enum Operator], in declaration order. *)
Inductive Operator : Type :=
| AND | OR | EQ | NE | GT | GTE | LT | LTE | IN | NIN | NOT.

Definition Operator_eqb (a b : Operator) : bool :=
  match a, b with
  | AND, AND | OR, OR | EQ, EQ | NE, NE | GT, GT | GTE, GTE
  | LT, LT | LTE, LTE | IN, IN | NIN, NIN | NOT, NOT => true
  | _, _ => false
  end.

(** A scalar filter value, [number | string | boolean].  [Num n] stands
    for the number whose value is the integer [n], for the safe integers
    (see [safeInteger]: [|n| <= 2^53 - 1], every numeric literal of the
    tests is one); on these [toString()] is the decimal numeral.  The
    other numbers -- fractions, [NaN], the infinities, and magnitudes
    beyond the safe integers, where [toString()] turns to exponent
    notation from [1e21] on -- are not represented: what is proved about
    the text of a number is proved for safe integers. *)
Inductive Scalar : Type :=
| Num (n : Z)
| Str (s : string)
| Bool (b : bool).

(** The payload of [Value]:
    [number | string | boolean | number[] | string[] | boolean[]]. *)
Inductive FilterValue : Type :=
| Single (s : Scalar)
| Array (xs : list Scalar).

(** [class Key { constructor(public key: string) }] *)
Record Key : Type := new_Key { key : string }.

(** [class Value { constructor(public value: ...) }] *)
Record Value : Type := new_Value { value : FilterValue }.

(** [type Operand = Key | Value | Expression | Group], with the classes
    [Expression] ([type], [left], optional [right]) and [Group]
    ([content]).  [Group.content] is declared [Expression], but
    [negateOperand] stores [inEx as Expression], an unchecked cast of an
    [Operand]; the field therefore has its run-time type [Operand]. *)
Inductive Operand : Type :=
| OKey (k : Key)
| OValue (v : Value)
| OExpression (e : Expression)
| OGroup (g : Group)
with Expression : Type :=
| new_Expression (type : Operator) (left : Operand) (right : option Operand)
with Group : Type :=
| new_Group (content : Operand).

Definition type (e : Expression) : Operator :=
  match e with new_Expression t _ _ => t end.
Definition left (e : Expression) : Operand :=
  match e with new_Expression _ l _ => l end.
Definition right (e : Expression) : option Operand :=
  match e with new_Expression _ _ r => r end.
Definition content (g : Group) : Operand :=
  match g with new_Group c => c end.

Coercion OKey : Key >-> Operand.
Coercion OValue : Value >-> Operand.
Coercion OExpression : Expression >-> Operand.
Coercion OGroup : Group >-> Operand.

(** [x instanceof Group], [x instanceof Value] on a possibly undefined
    value. *)
Definition instanceofGroup (o : Operand) : bool :=
  match o with OGroup _ => true | _ => false end.
Definition instanceofValue (o : option Operand) : bool :=
  match o with Some (OValue _) => true | _ => false end.

(** Structural induction on operands, with the hypothesis for the optional
    right child spelled out. *)
Section OperandInduction.
Variable P : Operand -> Prop.
Hypothesis HKey : forall k, P (OKey k).
Hypothesis HValue : forall v, P (OValue v).
Hypothesis HExpression : forall t l r,
    P l -> (forall r', r = Some r' -> P r') ->
    P (OExpression (new_Expression t l r)).
Hypothesis HGroup : forall c, P c -> P (OGroup (new_Group c)).

Fixpoint Operand_ind' (o : Operand) : P o :=
  match o with
  | OKey k => HKey k
  | OValue v => HValue v
  | OExpression (new_Expression t l r) =>
      HExpression t l r (Operand_ind' l)
        (match r as r0 return forall r', r0 = Some r' -> P r' with
         | Some x => fun r' H =>
             match H in _ = y return
                   match y with Some z => P z | None => True end with
             | eq_refl => Operand_ind' x
             end
         | None => fun r' H =>
             match H in _ = y return
                   match y with Some _ => P r' | None => True end with
             | eq_refl => I
             end
         end)
  | OGroup (new_Group c) => HGroup c (Operand_ind' c)
  end.
End OperandInduction.

(* ================================================================== *)
(** ** Errors and completions *)
(* ================================================================== *)

(** The exceptions the module raises, one constructor per [throw] site
    (and [TypeError] for a property read on [undefined]).  The sites of
    [UnexpectedOperandType] and [UnknownExpressionType] guard against
    values outside [Operand] and [Operator]; no operand of the model
    reaches them. *)
Inductive Error : Type :=
| UnsupportedExpressionType (t : Operator)
    (* "Unsupported expression type: ${exp.type}" *)
| MalformedExpression
    (* "Non AND/OR expression must have Value right argument!" *)
| UnexpectedOperandType
    (* "Unexpected operand type" *)
| UnknownExpressionType (t : Operator)
    (* "Unknown expression type: ${exp.type}" *)
| CannotNegateOperand (o : option Operand)
    (* "Cannot negate operand of type: ${operand}" *)
| MustBeImplemented
    (* "must be implemented in derived class" *)
| TypeError
    (* reading [constructor] of [undefined] *)
| OutOfFuel.
    (* not a JavaScript error: the recursion budget of the model ran out *)

Inductive Completion (A : Type) : Type :=
| Return (a : A)
| Throw (e : Error).
Arguments Return {A} a.
Arguments Throw {A} e.

Definition bindC {A B} (c : Completion A) (f : A -> Completion B)
  : Completion B :=
  match c with
  | Return a => f a
  | Throw e => Throw e
  end.

Notation "x <- c ;; k" := (bindC c (fun x => k))
  (at level 61, c at next level, right associativity).

(* ================================================================== *)
(** ** Negation engine *)
(* ================================================================== *)

(** [const TYPE_NEGATION_MAP: Record<Operator, Operator>] *)
Definition TYPE_NEGATION_MAP (t : Operator) : Operator :=
  match t with
  | AND => OR
  | OR => AND
  | EQ => NE
  | NE => EQ
  | GT => LTE
  | GTE => LT
  | LT => GTE
  | LTE => GT
  | IN => NIN
  | NIN => IN
  | NOT => NOT
  end.

(** [negateOperand(operand: Operand): Operand].  The argument of the
    recursive call on [exp.right] may be [undefined]; it is then neither a
    [Group] nor an [Expression] and the last branch throws. *)
Fixpoint negateOperand (operand : Operand) : Completion Operand :=
  match operand with
  | OGroup (new_Group c) =>
      inEx <- negateOperand c ;;
      let inEx :=
        match inEx with
        | OGroup g => content g
        | _ => inEx
        end in
      Return (OGroup (new_Group inEx))
  | OExpression (new_Expression t l r) =>
      match t with
      | NOT => negateOperand l
      | AND | OR =>
          nl <- negateOperand l ;;
          nr <- match r with
                | Some r' => negateOperand r'
                | None => Throw (CannotNegateOperand None)
                end ;;
          Return (OExpression
                    (new_Expression (TYPE_NEGATION_MAP t) nl (Some nr)))
      | EQ | NE | GT | GTE | LT | LTE | IN | NIN =>
          Return (OExpression (new_Expression (TYPE_NEGATION_MAP t) l r))
      end
  | OKey _ | OValue _ => Throw (CannotNegateOperand (Some operand))
  end.

(* ================================================================== *)
(** ** Expression builder *)
(* ================================================================== *)

(** JavaScript truthiness of a filter value, as tested by [value ? _ : _]:
    [0], the empty string and [false] are falsy; every array, the empty
    one included, is an object and truthy. *)
Definition truthy (v : FilterValue) : bool :=
  match v with
  | Single (Num n) => negb (Z.eqb n 0)
  | Single (Str s) => negb (String.eqb s "")
  | Single (Bool b) => b
  | Array _ => true
  end.

(** [class FilterExpressionBuilder].  The methods take the value as it is
    at run time: the narrower parameter types of [gt] .. [lte] are not
    checked there.  [in] is a keyword, hence [in_]. *)
Module FilterExpressionBuilder.

Definition eq (key : string) (value : FilterValue) : Expression :=
  new_Expression EQ (new_Key key)
    (if truthy value then Some (OValue (new_Value value)) else None).

Definition ne (key : string) (value : FilterValue) : Expression :=
  new_Expression NE (new_Key key)
    (if truthy value then Some (OValue (new_Value value)) else None).

Definition gt (key : string) (value : FilterValue) : Expression :=
  new_Expression GT (new_Key key)
    (if truthy value then Some (OValue (new_Value value)) else None).

Definition gte (key : string) (value : FilterValue) : Expression :=
  new_Expression GTE (new_Key key)
    (if truthy value then Some (OValue (new_Value value)) else None).

Definition lt (key : string) (value : FilterValue) : Expression :=
  new_Expression LT (new_Key key)
    (if truthy value then Some (OValue (new_Value value)) else None).

Definition lte (key : string) (value : FilterValue) : Expression :=
  new_Expression LTE (new_Key key)
    (if truthy value then Some (OValue (new_Value value)) else None).

Definition and (left right : Operand) : Expression :=
  new_Expression AND left (Some right).

Definition or (left right : Operand) : Expression :=
  new_Expression OR left (Some right).

Definition in_ (key : string) (values : list Scalar) : Expression :=
  new_Expression IN (new_Key key)
    (if truthy (Array values) then Some (OValue (new_Value (Array values))) else None).

Definition nin (key : string) (values : list Scalar) : Expression :=
  new_Expression NIN (new_Key key)
    (if truthy (Array values) then Some (OValue (new_Value (Array values))) else None).

Definition group (content : Expression) : Group :=
  new_Group content.

Definition not (content : Expression) : Expression :=
  new_Expression NOT content None.

End FilterExpressionBuilder.

(* ================================================================== *)
(** ** StringBuilder and the conversion monad *)
(* ================================================================== *)

(** [class StringBuilder { buffer: string[] }] *)
Record StringBuilder : Type := new_StringBuilder' { buffer : list string }.

Definition new_StringBuilder : StringBuilder := new_StringBuilder' [].

(** [toString(): this.buffer.join("")] *)
Definition toString (sb : StringBuilder) : string :=
  String.concat "" (buffer sb).

(** A method that works on a [context: StringBuilder]: it mutates the
    buffer and either returns or throws.  The buffer it leaves is kept in
    both cases, as the object is after an exception. *)
Definition M (A : Type) : Type := StringBuilder -> Completion A * StringBuilder.

Definition ret {A} (a : A) : M A := fun sb => (Return a, sb).

Definition throw {A} (e : Error) : M A := fun sb => (Throw e, sb).

Definition bind {A B} (m : M A) (f : A -> M B) : M B :=
  fun sb =>
    match m sb with
    | (Return a, sb') => f a sb'
    | (Throw e, sb') => (Throw e, sb')
    end.

Notation "m1 >> m2" := (bind m1 (fun _ => m2))
  (at level 62, right associativity).

(** [append(str): this.buffer.push(str)] *)
Definition append (str : string) : M unit :=
  fun sb => (Return tt, new_StringBuilder' (buffer sb ++ [str])).

(* ================================================================== *)
(** ** Conversion framework *)
(* ================================================================== *)

(** The methods of [BaseFilterExpressionConverter] that a dialect
    overrides.  [convertExpressionToContext] receives
    [this.convertOperandToContext] as its first argument: the hook of the
    reference dialect calls back into the walk. *)
Record FilterExpressionConverter : Type := {
  convertExpressionToContext :
    (option Operand -> M unit) -> Expression -> M unit;
  convertKeyToContext : Key -> M unit;
  writeGroupStart : Group -> M unit;
  writeGroupEnd : Group -> M unit;
  writeValueRangeStart : Value -> M unit;
  writeValueRangeEnd : Value -> M unit;
  writeValueRangeSeparator : Value -> M unit
}.

(** The symbol table of [convertSymbolToContext]. *)
Definition symbolMap (t : Operator) : option string :=
  match t with
  | AND => Some " AND "
  | OR => Some " OR "
  | EQ => Some " = "
  | NE => Some " != "
  | LT => Some " < "
  | LTE => Some " <= "
  | GT => Some " > "
  | GTE => Some " >= "
  | IN => Some " IN "
  | NOT => Some " NOT IN "
  | NIN => Some " NOT IN "
  end.

(** [convertSymbolToContext(exp, context)]:
    [context.append(symbolMap[exp.type] || (() => { throw ... })())].
    The right side of [||] runs when the looked-up entry is missing or is
    the empty string. *)
Definition convertSymbolToContext (exp : Expression) : M unit :=
  match symbolMap (type exp) with
  | Some (String c s) => append (String c s)
  | Some EmptyString | None => throw (UnsupportedExpressionType (type exp))
  end.

(** [value.toString()] of a number or a boolean; for a number, the decimal
    numeral, which is what [Number.prototype.toString] gives on the safe
    integers. *)
Definition Scalar_toString (v : Scalar) : string :=
  match v with
  | Num n => NilZero.string_of_int (Z.to_int n)
  | Bool true => "true"
  | Bool false => "false"
  | Str s => s
  end.

(** [convertSingleValueToContext(value, context)] *)
Definition convertSingleValueToContext (v : Scalar) : M unit :=
  match v with
  | Str s => append ("'" ++ s ++ "'")
  | _ => append (Scalar_toString v)
  end.

Section Walk.
Variable this : FilterExpressionConverter.

(** The [for] loop of [convertValueToContext]: [i] is the index of the
    head of [rest], [length] is [filterValue.value.length]. *)
Fixpoint convertValueToContext_loop (filterValue : Value) (length i : nat)
         (rest : list Scalar) : M unit :=
  match rest with
  | [] => ret tt
  | v :: rest' =>
      convertSingleValueToContext v >>
      (if Nat.ltb i (length - 1)
       then writeValueRangeSeparator this filterValue
       else ret tt) >>
      convertValueToContext_loop filterValue length (S i) rest'
  end.

(** [convertValueToContext(filterValue, context)] *)
Definition convertValueToContext (filterValue : Value) : M unit :=
  match value filterValue with
  | Array xs =>
      writeValueRangeStart this filterValue >>
      convertValueToContext_loop filterValue (List.length xs) 0 xs >>
      writeValueRangeEnd this filterValue
  | Single v => convertSingleValueToContext v
  end.

(** The structural validation of [convertOperandToContext]. *)
Definition malformed (exp : Expression) : bool :=
  negb (Operator_eqb (type exp) NOT) &&
  negb (Operator_eqb (type exp) AND) &&
  negb (Operator_eqb (type exp) OR) &&
  negb (instanceofValue (right exp)).

Section Methods.
(** [this.convertOperandToContext], for the recursive calls. *)
Variable convertOperandToContext : option Operand -> M unit.

(** [convertGroupToContext(group, context)] *)
Definition convertGroupToContext (group : Group) : M unit :=
  writeGroupStart this group >>
  convertOperandToContext (Some (content group)) >>
  writeGroupEnd this group.

(** [convertNotExpressionToContext(expression, context)] *)
Definition convertNotExpressionToContext (expression : Expression)
  : M unit :=
  match negateOperand (OExpression expression) with
  | Return o => convertOperandToContext (Some o)
  | Throw e => throw e
  end.

(** The body of [convertOperandToContext(operand, context)]: the
    dispatch on [operand.constructor.name]. *)
Definition convertOperandToContext_body (operand : option Operand)
  : M unit :=
  match operand with
  | None => throw TypeError
  | Some (OGroup g) => convertGroupToContext g
  | Some (OKey k) => convertKeyToContext this k
  | Some (OValue v) => convertValueToContext v
  | Some (OExpression exp) =>
      if malformed exp then throw MalformedExpression
      else if Operator_eqb (type exp) NOT
           then convertNotExpressionToContext exp
           else convertExpressionToContext this
                  convertOperandToContext exp
  end.
End Methods.

(** [convertOperandToContext], with a budget for the depth of the
    recursion through the hooks and through negated operands. *)
Fixpoint convertOperandToContext (fuel : nat) (operand : option Operand)
  : M unit :=
  match fuel with
  | O => throw OutOfFuel
  | S fuel' =>
      convertOperandToContext_body (convertOperandToContext fuel') operand
  end.

(** [convertOperand(operand)] *)
Definition convertOperand (fuel : nat) (operand : Operand)
  : Completion string :=
  match convertOperandToContext fuel (Some operand) new_StringBuilder with
  | (Return _, context) => Return (toString context)
  | (Throw e, _) => Throw e
  end.

(** [convertExpression(expression)] *)
Definition convertExpression (fuel : nat) (expression : Expression)
  : Completion string :=
  convertOperand fuel (OExpression expression).
End Walk.

(** The defaults of [BaseFilterExpressionConverter]. *)
Definition BaseFilterExpressionConverter : FilterExpressionConverter := {|
  convertExpressionToContext := fun _ _ => throw MustBeImplemented;
  convertKeyToContext := fun _ => throw MustBeImplemented;
  writeGroupStart := fun _ => ret tt;
  writeGroupEnd := fun _ => ret tt;
  writeValueRangeStart := fun _ => append "[";
  writeValueRangeEnd := fun _ => append "]";
  writeValueRangeSeparator := fun _ => append ","
|}.

(** [class TestFilterExpressionConverter extends
    BaseFilterExpressionConverter], the reference dialect of the tests. *)
Definition TestFilterExpressionConverter : FilterExpressionConverter := {|
  convertExpressionToContext := fun convertOperandToContext expression =>
    convertOperandToContext (Some (left expression)) >>
    convertSymbolToContext expression >>
    convertOperandToContext (right expression);
  convertKeyToContext := fun k => append ("'$." ++ key k ++ "'");
  writeGroupStart := fun _ => append "(";
  writeGroupEnd := fun _ => append ")";
  writeValueRangeStart := fun _ => append "[";
  writeValueRangeEnd := fun _ => append "]";
  writeValueRangeSeparator :=
    writeValueRangeSeparator BaseFilterExpressionConverter
|}.

(** [const b = new FilterExpressionBuilder()], as in the tests. *)
Module b := FilterExpressionBuilder.

(* ================================================================== *)
(** ** Shapes of trees *)
(* ================================================================== *)

(** The comparison and membership tags. *)
Definition isComparison (t : Operator) : bool :=
  match t with
  | EQ | NE | GT | GTE | LT | LTE | IN | NIN => true
  | AND | OR | NOT => false
  end.

(** A leaf comparison: a comparison tag, a [Key] on the left and a [Value]
    on the right. *)
Definition isLeafComparison (e : Expression) : bool :=
  isComparison (type e) &&
  match left e, right e with
  | OKey _, Some (OValue _) => true
  | _, _ => false
  end.

(** Trees of [AND]/[OR] over leaf comparisons, without [NOT] and without
    [Group]. *)
Fixpoint isAndOrTree (o : Operand) : bool :=
  match o with
  | OExpression (new_Expression t l r) =>
      match t with
      | AND | OR =>
          isAndOrTree l &&
          match r with Some r' => isAndOrTree r' | None => false end
      | NOT => false
      | _ => isLeafComparison (new_Expression t l r)
      end
  | _ => false
  end.

(** The operands [negateOperand] is defined on: groups and expressions
    whose logical nodes have operands of the same kind throughout. *)
Fixpoint negatable (o : Operand) : bool :=
  match o with
  | OGroup (new_Group c) => negatable c
  | OExpression (new_Expression t l r) =>
      match t with
      | NOT => negatable l
      | AND | OR =>
          negatable l &&
          match r with Some r' => negatable r' | None => false end
      | _ => true
      end
  | OKey _ | OValue _ => false
  end.

(** The number of nested calls the walk needs for an operand. *)
Fixpoint depth (o : Operand) : nat :=
  match o with
  | OKey _ | OValue _ => 1
  | OExpression (new_Expression _ l r) =>
      S (Nat.max (depth l)
                 (match r with Some r' => depth r' | None => 0 end))
  | OGroup (new_Group c) => S (depth c)
  end.

(* ================================================================== *)
(** ** The negation engine: supporting lemmas *)
(* ================================================================== *)

Lemma TYPE_NEGATION_MAP_involutive (t : Operator) :
  TYPE_NEGATION_MAP (TYPE_NEGATION_MAP t) = t.
Proof. destruct t; reflexivity. Qed.

Lemma TYPE_NEGATION_MAP_comparison (t : Operator) :
  isComparison (TYPE_NEGATION_MAP t) = isComparison t.
Proof. destruct t; reflexivity. Qed.

Lemma bindC_Return {A B} (c : Completion A) (f : A -> Completion B) (y : B) :
  bindC c f = Return y -> exists a, c = Return a /\ f a = Return y.
Proof.
  destruct c as [a|e]; simpl; intros H; [exists a; auto | discriminate].
Qed.

Lemma negateOperand_comparison (t : Operator) (l : Operand)
      (r : option Operand) :
  isComparison t = true ->
  negateOperand (new_Expression t l r)
  = Return (OExpression (new_Expression (TYPE_NEGATION_MAP t) l r)).
Proof. destruct t; simpl; intros H; try discriminate; reflexivity. Qed.

(** A negated operand is a [Group] or an [Expression]. *)
Lemma negateOperand_kind (o o' : Operand) :
  negateOperand o = Return o' ->
  match o' with OExpression _ | OGroup _ => True | _ => False end.
Proof.
  revert o'. induction o as [k|v|t l r IHl IHr|c IHc] using Operand_ind';
    intros o' H; simpl in H; try discriminate.
  - destruct t; try (injection H as <-; exact I);
      try (apply bindC_Return in H as (nl & _ & H);
           apply bindC_Return in H as (nr & _ & H);
           injection H as <-; exact I).
    eapply IHl; eassumption.
  - apply bindC_Return in H as (x & _ & H). injection H as <-. exact I.
Qed.

(** [negateOperand] returns exactly on the negatable operands. *)
Lemma negateOperand_negatable (o : Operand) :
  negatable o = true <-> exists o', negateOperand o = Return o'.
Proof.
  induction o as [k|v|t l r IHl IHr|c IHc] using Operand_ind'; simpl.
  - split; [discriminate | intros [o' H]; discriminate].
  - split; [discriminate | intros [o' H]; discriminate].
  - destruct t; try (split; [intros _; eexists; reflexivity | reflexivity]);
      try exact IHl.
    + (* AND *)
      split.
      * intros H. apply andb_true_iff in H as [Hl Hr].
        apply IHl in Hl as [nl Hl]. destruct r as [r'|]; [|discriminate].
        apply (IHr r' eq_refl) in Hr as [nr Hr].
        rewrite Hl, Hr. simpl. eexists; reflexivity.
      * intros [o' H]. apply bindC_Return in H as (nl & Hl & H).
        apply bindC_Return in H as (nr & Hr & _).
        destruct r as [r'|]; [|discriminate].
        apply andb_true_iff. split.
        -- apply IHl. eauto.
        -- apply (IHr r' eq_refl). eauto.
    + (* OR *)
      split.
      * intros H. apply andb_true_iff in H as [Hl Hr].
        apply IHl in Hl as [nl Hl]. destruct r as [r'|]; [|discriminate].
        apply (IHr r' eq_refl) in Hr as [nr Hr].
        rewrite Hl, Hr. simpl. eexists; reflexivity.
      * intros [o' H]. apply bindC_Return in H as (nl & Hl & H).
        apply bindC_Return in H as (nr & Hr & _).
        destruct r as [r'|]; [|discriminate].
        apply andb_true_iff. split.
        -- apply IHl. eauto.
        -- apply (IHr r' eq_refl). eauto.
  - rewrite IHc. split.
    + intros [x Hx]. rewrite Hx. simpl. eexists; reflexivity.
    + intros [o' H]. apply bindC_Return in H as (x & Hx & _). eauto.
Qed.

(** The content of a negated group is never a group. *)
Lemma negateOperand_flat (o : Operand) :
  forall c, negateOperand o = Return (OGroup (new_Group c)) ->
            instanceofGroup c = false.
Proof.
  induction o as [k|v|t l r IHl IHr|c0 IHc] using Operand_ind';
    intros c H; simpl in H; try discriminate.
  - destruct t; try discriminate;
      try (apply bindC_Return in H as (nl & _ & H);
           apply bindC_Return in H as (nr & _ & H); discriminate).
    apply IHl; assumption.
  - apply bindC_Return in H as (x & Hx & H).
    injection H as <-.
    destruct x as [k|v|e|[c']]; try reflexivity.
    simpl. apply IHc. assumption.
Qed.

(** Negation does not deepen a tree. *)
Lemma negateOperand_depth (o : Operand) :
  forall o', negateOperand o = Return o' -> depth o' <= depth o.
Proof.
  induction o as [k|v|t l r IHl IHr|c IHc] using Operand_ind';
    intros o' H; simpl in H; try discriminate.
  - destruct t;
      try (injection H as <-; simpl; lia);
      try (apply bindC_Return in H as (nl & Hl & H);
           apply bindC_Return in H as (nr & Hr & H);
           injection H as <-;
           destruct r as [r'|]; [|discriminate];
           specialize (IHl _ Hl); specialize (IHr r' eq_refl _ Hr);
           simpl; lia).
    specialize (IHl _ H). simpl. lia.
  - apply bindC_Return in H as (x & Hx & H). injection H as <-.
    specialize (IHc _ Hx).
    destruct x as [k|v|e|[c']]; simpl in *; lia.
Qed.

(* ================================================================== *)
(** ** The conversion walk: the recursion budget *)
(* ================================================================== *)

Lemma depth_pos (o : Operand) : 1 <= depth o.
Proof. destruct o as [k|v|[t l r]|[c]]; simpl; lia. Qed.

(** [m] does not stop for lack of budget. *)
Definition terminates (m : M unit) : Prop :=
  forall sb, fst (m sb) <> Throw OutOfFuel.

(** Whatever [m] does without running out of budget, [m'] does too. *)
Definition refines (m m' : M unit) : Prop :=
  forall sb c sb', m sb = (c, sb') -> c <> Throw OutOfFuel -> m' sb = (c, sb').

Lemma terminates_append (s : string) : terminates (append s).
Proof. intros sb. simpl. discriminate. Qed.

Lemma terminates_ret : terminates (ret tt).
Proof. intros sb. simpl. discriminate. Qed.

Lemma terminates_throw (e : Error) :
  e <> OutOfFuel -> terminates (throw e).
Proof. intros H sb. simpl. congruence. Qed.

Lemma terminates_bind (m1 m2 : M unit) :
  terminates m1 -> terminates m2 -> terminates (m1 >> m2).
Proof.
  intros H1 H2 sb. unfold bind. specialize (H1 sb).
  destruct (m1 sb) as [[a|e] sb1]; simpl in *; [apply H2 | exact H1].
Qed.

Lemma refines_refl (m : M unit) : refines m m.
Proof. intros sb c sb' H _. exact H. Qed.

Lemma refines_bind (m1 m1' m2 m2' : M unit) :
  refines m1 m1' -> refines m2 m2' -> refines (m1 >> m2) (m1' >> m2').
Proof.
  intros H1 H2 sb c sb' H Hc. unfold bind in *.
  destruct (m1 sb) as [[a|e] sb1] eqn:E1.
  - rewrite (H1 sb (Return a) sb1 E1) by discriminate.
    apply H2; assumption.
  - injection H as <- <-. rewrite (H1 sb (Throw e) sb1 E1) by assumption.
    reflexivity.
Qed.

Create HintDb walk.

#[local] Hint Resolve terminates_append terminates_ret terminates_bind
  refines_refl refines_bind : walk.

Lemma terminates_convertSymbolToContext (exp : Expression) :
  terminates (convertSymbolToContext exp).
Proof.
  unfold convertSymbolToContext. destruct (type exp); simpl; auto with walk.
Qed.

Lemma terminates_convertSingleValueToContext (v : Scalar) :
  terminates (convertSingleValueToContext v).
Proof. destruct v; simpl; auto with walk. Qed.

#[local] Hint Resolve terminates_convertSymbolToContext
  terminates_convertSingleValueToContext : walk.

Lemma terminates_convertValueToContext_Test (v : Value) :
  terminates (convertValueToContext TestFilterExpressionConverter v).
Proof.
  unfold convertValueToContext. destruct (value v) as [s|xs];
    [auto with walk|].
  apply terminates_bind; [simpl; auto with walk|].
  apply terminates_bind; [|simpl; auto with walk].
  generalize 0 as i. generalize (List.length xs) as len.
  induction xs as [|x xs IH]; intros len i; simpl; [auto with walk|].
  apply terminates_bind; [auto with walk|].
  apply terminates_bind; [|apply IH].
  destruct (Nat.ltb i (len - 1)); auto with walk.
Qed.

(** With a budget of at least the depth of the operand, the walk of the
    reference dialect never stops for lack of budget. *)
Lemma convertOperandToContext_enough_fuel (fuel : nat) :
  forall o : option Operand,
    1 <= fuel ->
    (forall o', o = Some o' -> depth o' <= fuel) ->
    terminates (convertOperandToContext TestFilterExpressionConverter fuel o).
Proof.
  induction fuel as [|fuel IH]; intros o Hpos Hd; [lia|].
  simpl. destruct o as [[k|v|[t l r]|[c]]|]; simpl.
  - auto with walk.
  - apply terminates_convertValueToContext_Test.
  - specialize (Hd _ eq_refl). simpl in Hd.
    pose proof (depth_pos l) as Hl.
    destruct (malformed (new_Expression t l r));
      [apply terminates_throw; discriminate|].
    destruct (Operator_eqb t NOT) eqn:Et.
    + unfold convertNotExpressionToContext.
      destruct t; try discriminate. simpl.
      destruct (negateOperand l) as [o'|e] eqn:En.
      * apply IH; [lia|]. intros o'' [= <-].
        apply negateOperand_depth in En. lia.
      * apply terminates_throw. clear - En.
        intros ->. revert En.
        induction l as [k|v|t l r IHl IHr|c IHc] using Operand_ind';
          simpl; try discriminate.
        -- destruct t; try discriminate; try exact IHl;
             (destruct (negateOperand l); simpl; [|exact IHl];
              destruct r as [r'|]; simpl; [|discriminate];
              specialize (IHr r' eq_refl);
              destruct (negateOperand r'); simpl;
              [discriminate | exact IHr]).
        -- destruct (negateOperand c); simpl; [discriminate | exact IHc].
    + apply terminates_bind; [apply IH; [lia|]; intros o' [= <-]; lia|].
      apply terminates_bind; [auto with walk|].
      apply IH; [lia|]. intros o' ->. lia.
  - specialize (Hd _ eq_refl). simpl in Hd. pose proof (depth_pos c).
    unfold convertGroupToContext. simpl.
    apply terminates_bind; [auto with walk|].
    apply terminates_bind; [|auto with walk].
    apply IH; [lia|]. intros o' [= <-]. lia.
  - apply terminates_throw; discriminate.
Qed.

(** A larger budget does not change what the walk of the reference dialect
    does. *)
Lemma convertOperandToContext_fuel_mono (fuel k : nat) :
  forall o : option Operand,
    refines (convertOperandToContext TestFilterExpressionConverter fuel o)
            (convertOperandToContext TestFilterExpressionConverter
                                     (fuel + k) o).
Proof.
  induction fuel as [|fuel IH]; intros o.
  - intros sb c sb' H Hc. simpl in H. injection H as <- <-. congruence.
  - simpl. destruct o as [[ky|v|[t l r]|[c]]|]; simpl; auto with walk.
    + destruct (malformed (new_Expression t l r)); [auto with walk|].
      destruct (Operator_eqb t NOT).
      * unfold convertNotExpressionToContext.
        destruct (negateOperand (new_Expression t l r));
          auto with walk.
      * auto with walk.
    + unfold convertGroupToContext. auto with walk.
Qed.

(** The string [convertExpression] returns in the reference dialect is the
    same for every budget from the depth of the expression on. *)
Lemma convertExpression_Test_total (expression : Expression) (k : nat) :
  convertExpression TestFilterExpressionConverter
                    (depth expression + k) expression
  = convertExpression TestFilterExpressionConverter
                      (depth expression) expression
  /\ convertExpression TestFilterExpressionConverter
                       (depth expression) expression
     <> Throw OutOfFuel.
Proof.
  unfold convertExpression, convertOperand.
  pose proof (convertOperandToContext_enough_fuel (depth expression)
                (Some (OExpression expression)) (depth_pos _)) as Ht.
  assert (Hd : forall o', Some (OExpression expression) = Some o' ->
                          depth o' <= depth expression)
    by (intros o' [= <-]; lia).
  specialize (Ht Hd new_StringBuilder).
  destruct (convertOperandToContext TestFilterExpressionConverter
              (depth expression) (Some (OExpression expression))
              new_StringBuilder) as [c sb'] eqn:E.
  simpl in Ht.
  rewrite (convertOperandToContext_fuel_mono (depth expression) k _ _ _ _ E Ht).
  split; [reflexivity|].
  destruct c as [[]|e]; [discriminate | congruence].
Qed.

(* ================================================================== *)
(** ** Properties of the negation engine *)
(* ================================================================== *)

(** C3.  De Morgan push-down: for all operands [a] and [b] whose negations
    [negateOperand] returns as [na] and [nb], [negateOperand] returns
    [Expression(OR, na, nb)] on [Expression(AND, a, b)] and
    [Expression(AND, na, nb)] on [Expression(OR, a, b)]. *)
Theorem negateOperand_de_morgan (a b0 na nb : Operand) :
  negateOperand a = Return na ->
  negateOperand b0 = Return nb ->
  negateOperand (b.and a b0) = Return (OExpression (b.or na nb))
  /\ negateOperand (b.or a b0) = Return (OExpression (b.and na nb)).
Proof.
  intros Ha Hb. unfold b.and, b.or.
  split; cbn [negateOperand TYPE_NEGATION_MAP bindC];
    rewrite Ha; cbn [bindC]; rewrite Hb; reflexivity.
Qed.

Lemma negateOperand_de_morgan_witness :
  negateOperand (b.and (b.eq "name" (Single (Str "martin")))
                       (b.group (b.lt "birth" (Single (Num 2023)))))
  = Return (OExpression
              (b.or (b.ne "name" (Single (Str "martin")))
                    (b.group (b.gte "birth" (Single (Num 2023))))))
  /\ negateOperand (b.or (b.eq "name" (Single (Str "martin")))
                         (b.group (b.lt "birth" (Single (Num 2023)))))
     = Return (OExpression
                 (b.and (b.ne "name" (Single (Str "martin")))
                        (b.group (b.gte "birth" (Single (Num 2023)))))).
Proof.
  exact (negateOperand_de_morgan
           (b.eq "name" (Single (Str "martin")))
           (b.group (b.lt "birth" (Single (Num 2023))))
           (b.ne "name" (Single (Str "martin")))
           (b.group (b.gte "birth" (Single (Num 2023))))
           eq_refl eq_refl).
Defined.

(** X12.  De Morgan under rendering: in every dialect, converting
    [not(and(a, b))] is converting [or(na, nb)] where [na] and [nb] are the
    negations of [a] and [b], and likewise for [or]; eliminating the [NOT]
    takes one level of the budget. *)
Lemma convertExpression_de_morgan (this : FilterExpressionConverter)
      (fuel : nat) (a b0 na nb : Operand) :
  negateOperand a = Return na ->
  negateOperand b0 = Return nb ->
  convertExpression this (S fuel) (b.not (b.and a b0))
  = convertExpression this fuel (b.or na nb)
  /\ convertExpression this (S fuel) (b.not (b.or a b0))
     = convertExpression this fuel (b.and na nb).
Proof.
  intros Ha Hb. unfold convertExpression, convertOperand.
  split; simpl; unfold convertNotExpressionToContext; simpl;
    rewrite Ha, Hb; reflexivity.
Qed.

(** C6.  Round-trip negation of a leaf: for a comparison or membership
    tag [t], a key [k] and a value [v], negating
    [Expression(t, Key k, Value v)] returns the expression with the inverse
    tag and the same operands, and negating that returns the original
    expression; the inversion table is an involution. *)
Theorem negateOperand_leaf_involutive (t : Operator) (k : Key) (v : Value) :
  isComparison t = true ->
  negateOperand (new_Expression t k (Some (OValue v)))
  = Return (OExpression
              (new_Expression (TYPE_NEGATION_MAP t) k (Some (OValue v))))
  /\ (ne <- negateOperand (new_Expression t k (Some (OValue v))) ;;
      negateOperand ne)
     = Return (OExpression (new_Expression t k (Some (OValue v))))
  /\ TYPE_NEGATION_MAP (TYPE_NEGATION_MAP t) = t.
Proof.
  intros Ht.
  rewrite (negateOperand_comparison t k (Some (OValue v)) Ht).
  split; [reflexivity|]. split; [|apply TYPE_NEGATION_MAP_involutive].
  unfold bindC.
  rewrite negateOperand_comparison
    by (rewrite TYPE_NEGATION_MAP_comparison; exact Ht).
  rewrite TYPE_NEGATION_MAP_involutive. reflexivity.
Qed.

Lemma negateOperand_leaf_involutive_witness :
  (ne <- negateOperand (b.gt "a" (Single (Num 2015))) ;; negateOperand ne)
  = Return (OExpression (b.gt "a" (Single (Num 2015)))).
Proof.
  exact (proj1 (proj2 (negateOperand_leaf_involutive
                         GT (new_Key "a") (new_Value (Single (Num 2015)))
                         eq_refl))).
Defined.

(** Negation maps the trees of [AND]/[OR] over leaf comparisons to
    themselves. *)
Lemma negateOperand_isAndOrTree (o : Operand) :
  isAndOrTree o = true ->
  exists o', negateOperand o = Return o' /\ isAndOrTree o' = true.
Proof.
  induction o as [k|v|t l r IHl IHr|c IHc] using Operand_ind';
    simpl; try discriminate.
  assert (Hleaf : isLeafComparison (new_Expression t l r) = true ->
                  exists o', negateOperand (new_Expression t l r) = Return o'
                             /\ isAndOrTree o' = true).
  { intros H. unfold isLeafComparison in H. simpl in H.
    apply andb_true_iff in H as [Ht Hlr].
    rewrite negateOperand_comparison by exact Ht.
    eexists. split; [reflexivity|].
    assert (isLeafComparison
              (new_Expression (TYPE_NEGATION_MAP t) l r) = true) as Hn
        by (unfold isLeafComparison; simpl;
            rewrite TYPE_NEGATION_MAP_comparison, Ht; exact Hlr).
    destruct t; try discriminate; exact Hn. }
  destruct t; try exact Hleaf; try discriminate;
    (intros H; apply andb_true_iff in H as [Hl Hr];
     destruct r as [r'|]; [|discriminate];
     destruct (IHl Hl) as (nl & El & Tl);
     destruct (IHr r' eq_refl Hr) as (nr & Er & Tr);
     simpl; rewrite El, Er; simpl;
     eexists; split; [reflexivity|]; simpl; rewrite Tl, Tr; reflexivity).
Qed.

(** C9.  [negateOperand] is an involution on the trees built from [AND]
    and [OR] over leaf comparisons ([Key] left, [Value] right), without
    [NOT] and without [Group]: negating such a tree returns a tree of the
    same kind, and negating that returns the original tree. *)
Theorem negateOperand_involutive (o : Operand) :
  isAndOrTree o = true ->
  exists o', negateOperand o = Return o'
             /\ isAndOrTree o' = true
             /\ negateOperand o' = Return o.
Proof.
  induction o as [k|v|t l r IHl IHr|c IHc] using Operand_ind';
    simpl; try discriminate.
  assert (Hleaf : isLeafComparison (new_Expression t l r) = true ->
                  exists o', negateOperand (new_Expression t l r) = Return o'
                             /\ isAndOrTree o' = true
                             /\ negateOperand o'
                                = Return (OExpression (new_Expression t l r))).
  { intros H.
    destruct (negateOperand_isAndOrTree (new_Expression t l r)) as (o' & E & T).
    { destruct t; simpl; try exact H;
        unfold isLeafComparison in H; simpl in H; discriminate. }
    exists o'. split; [exact E|]. split; [exact T|].
    unfold isLeafComparison in H. simpl in H.
    apply andb_true_iff in H as [Ht _].
    rewrite negateOperand_comparison in E by exact Ht.
    injection E as <-.
    rewrite negateOperand_comparison
      by (rewrite TYPE_NEGATION_MAP_comparison; exact Ht).
    rewrite TYPE_NEGATION_MAP_involutive. reflexivity. }
  destruct t; try exact Hleaf; try discriminate;
    (intros H; apply andb_true_iff in H as [Hl Hr];
     destruct r as [r'|]; [|discriminate];
     destruct (IHl Hl) as (nl & El & Tl & Bl);
     destruct (IHr r' eq_refl Hr) as (nr & Er & Tr & Br);
     simpl; rewrite El, Er; simpl;
     eexists; split; [reflexivity|]; split;
     [simpl; rewrite Tl, Tr; reflexivity
     |simpl; rewrite Bl, Br; reflexivity]).
Qed.

(** The tree [and(or(a = 1, b < 2), c IN [3])]. *)
Definition nestedAndOr : Expression :=
  b.and (b.or (b.eq "a" (Single (Num 1))) (b.lt "b" (Single (Num 2))))
        (b.in_ "c" [Num 3]).

Lemma negateOperand_involutive_witness :
  exists o', negateOperand nestedAndOr = Return o'
             /\ isAndOrTree o' = true
             /\ negateOperand o' = Return (OExpression nestedAndOr).
Proof. exact (negateOperand_involutive nestedAndOr eq_refl). Defined.

(** C7.  Double-group collapse: whenever negating a group returns, the
    result is a group whose content is not a group, and negating a group
    returns whenever its content is negatable; so repeated negation never
    nests groups. *)
Theorem negateOperand_group_flat (g : Group) :
  (forall o', negateOperand g = Return o' ->
              exists c, o' = OGroup (new_Group c)
                        /\ instanceofGroup c = false)
  /\ (negatable (content g) = true ->
      exists c, negateOperand g = Return (OGroup (new_Group c))
                /\ instanceofGroup c = false).
Proof.
  assert (H1 : forall o', negateOperand g = Return o' ->
                          exists c, o' = OGroup (new_Group c)
                                    /\ instanceofGroup c = false).
  { intros o' H. destruct g as [c0].
    pose proof H as H'. simpl in H'.
    apply bindC_Return in H' as (x & _ & H'). injection H' as <-.
    eexists. split; [reflexivity|].
    eapply negateOperand_flat. exact H. }
  split; [exact H1|].
  intros Hn.
  assert (Hg : negatable g = true) by (destruct g; exact Hn).
  apply negateOperand_negatable in Hg as [o' Ho'].
  destruct (H1 o' Ho') as (c & -> & Hc).
  exists c. split; assumption.
Qed.

(** A group whose content, [NOT (NOT (group (a = 1)))], negates to a
    group. *)
Definition groupOfNotGroup : Group :=
  b.group (b.not (new_Expression NOT
                    (b.group (b.eq "a" (Single (Num 1)))) None)).

Lemma negateOperand_group_flat_witness :
  exists c, negateOperand groupOfNotGroup = Return (OGroup (new_Group c))
            /\ instanceofGroup c = false.
Proof.
  exact (proj2 (negateOperand_group_flat groupOfNotGroup) eq_refl).
Defined.

(* ================================================================== *)
(** ** Properties of the conversion walk *)
(* ================================================================== *)

(** [not(and(eq("name","martin"),
             group(or(eq("firstname","john"), eq("firstname","jack")))))] *)
Definition scenario : Expression :=
  b.not
    (b.and
       (b.eq "name" (Single (Str "martin")))
       (b.group (b.or (b.eq "firstname" (Single (Str "john")))
                      (b.eq "firstname" (Single (Str "jack")))))).

(** C1.  In the reference dialect, [convertExpression] of [scenario]
    returns, with every budget from 6 on, exactly the string
    ['$.name' != 'martin' OR ('$.firstname' != 'john' AND
    '$.firstname' != 'jack')]. *)
Theorem convertExpression_scenario (k : nat) :
  convertExpression TestFilterExpressionConverter (6 + k) scenario
  = Return "'$.name' != 'martin' OR ('$.firstname' != 'john' AND '$.firstname' != 'jack')".
Proof. vm_compute. reflexivity. Qed.

(** The expression [NOT (a = 2015)] whose symbol is requested. *)
Definition notExpression : Expression := b.not (b.eq "a" (Single (Num 2015))).

(** C2, as it is stated, fails: on an expression with tag [NOT],
    [convertSymbolToContext] returns and has appended a token. *)
Lemma convertSymbolToContext_NOT_counterexample :
  convertSymbolToContext notExpression new_StringBuilder
  = (Return tt, new_StringBuilder' [" NOT IN "])
  /\ ~ (exists sb', convertSymbolToContext notExpression new_StringBuilder
                    = (Throw (UnsupportedExpressionType NOT), sb')).
Proof.
  split; [reflexivity|]. intros [sb' H]. vm_compute in H. discriminate.
Qed.

(** C2, amended.  The symbol table has an entry for every tag, [NOT]
    included: on an expression with tag [NOT], [convertSymbolToContext]
    appends the token [" NOT IN "] (the token of [NIN]) and returns, and on
    no expression does it throw.  The walk itself does not request the
    symbol of a [NOT] expression: in every dialect it hands the expression
    to the negation. *)
Theorem convertSymbolToContext_NOT (l : Operand) (r : option Operand)
        (sb : StringBuilder) :
  convertSymbolToContext (new_Expression NOT l r) sb
  = (Return tt, new_StringBuilder' (buffer sb ++ [" NOT IN "]))
  /\ symbolMap NOT = symbolMap NIN
  /\ (forall exp : Expression,
        exists s, symbolMap (type exp) = Some s
                  /\ convertSymbolToContext exp sb
                     = (Return tt, new_StringBuilder' (buffer sb ++ [s])))
  /\ (forall (this : FilterExpressionConverter) (fuel : nat),
        convertOperandToContext this (S fuel)
          (Some (OExpression (new_Expression NOT l r))) sb
        = convertNotExpressionToContext (convertOperandToContext this fuel)
            (new_Expression NOT l r) sb).
Proof.
  split; [reflexivity|]. split; [reflexivity|]. split; [|reflexivity].
  intros [t l' r']. destruct t; simpl; eexists; split; reflexivity.
Qed.

(** The six comparison methods of the builder, each with its tag. *)
Definition comparisonMethods
  : list ((string -> FilterValue -> Expression) * Operator) :=
  [ (b.eq, EQ); (b.ne, NE); (b.gt, GT); (b.gte, GTE); (b.lt, LT);
    (b.lte, LTE) ].

(** The falsy scalars [0], [""] and [false]. *)
Definition falsyScalars : list FilterValue :=
  [ Single (Num 0); Single (Str ""); Single (Bool false) ].

Lemma truthy_false_iff (v : FilterValue) :
  truthy v = false <-> In v falsyScalars.
Proof.
  unfold falsyScalars. split.
  - destruct v as [[n|s|[|]]|xs]; simpl; try discriminate.
    + intros H. apply negb_false_iff, Z.eqb_eq in H. subst. auto.
    + intros H. apply negb_false_iff, String.eqb_eq in H. subst. auto.
    + auto.
  - simpl. intros [<-|[<-|[<-|[]]]]; reflexivity.
Qed.

(** C4.  For every key and every falsy scalar [v] ([0], [""] or [false]),
    each of [eq], [ne], [gt], [gte], [lt], [lte] returns an expression
    whose right operand is absent, and converting that expression, in any
    dialect, throws the malformed-expression error. *)
Theorem builder_falsy_value (this : FilterExpressionConverter)
        (m : string -> FilterValue -> Expression) (op : Operator)
        (key : string) (v : FilterValue) (fuel : nat) :
  In (m, op) comparisonMethods ->
  In v falsyScalars ->
  m key v = new_Expression op (new_Key key) None
  /\ convertExpression this (S fuel) (m key v) = Throw MalformedExpression.
Proof.
  intros Hm Hv. apply truthy_false_iff in Hv.
  assert (E : m key v = new_Expression op (new_Key key) None).
  { simpl in Hm.
    destruct Hm as [H|[H|[H|[H|[H|[H|[]]]]]]]; injection H as <- <-;
      cbv [b.eq b.ne b.gt b.gte b.lt b.lte];
      rewrite Hv; reflexivity. }
  split; [exact E|]. rewrite E.
  simpl in Hm.
  destruct Hm as [H|[H|[H|[H|[H|[H|[]]]]]]]; injection H as _ <-;
    reflexivity.
Qed.

Lemma builder_falsy_value_witness :
  b.gte "birth" (Single (Num 0)) = new_Expression GTE (new_Key "birth") None
  /\ convertExpression TestFilterExpressionConverter 1
                       (b.gte "birth" (Single (Num 0)))
     = Throw MalformedExpression.
Proof.
  apply (builder_falsy_value TestFilterExpressionConverter b.gte GTE
                             "birth" (Single (Num 0)) 0).
  - simpl. auto.
  - simpl. auto.
Defined.

(** C5.  Structural validation: in every dialect, converting an expression
    with a comparison or membership tag whose right operand is not a
    [Value] (a [Key], say, or none) throws the malformed-expression error
    and leaves the buffer as it was; for the tags [NOT], [AND] and [OR] the
    check does not fire, whatever the right operand is: the walk goes on to
    the negation for [NOT] and to [convertExpressionToContext] for [AND]
    and [OR]. *)
Theorem structural_validation (this : FilterExpressionConverter)
        (fuel : nat) (exp : Expression) (sb : StringBuilder) :
  (isComparison (type exp) = true ->
   instanceofValue (right exp) = false ->
   convertOperandToContext this (S fuel) (Some (OExpression exp)) sb
   = (Throw MalformedExpression, sb))
  /\ (isComparison (type exp) = false ->
      malformed exp = false
      /\ convertOperandToContext this (S fuel) (Some (OExpression exp)) sb
         = if Operator_eqb (type exp) NOT
           then convertNotExpressionToContext
                  (convertOperandToContext this fuel) exp sb
           else convertExpressionToContext this
                  (convertOperandToContext this fuel) exp sb).
Proof.
  destruct exp as [t l r]. cbn [type right]. split.
  - intros Ht Hr. cbn [convertOperandToContext convertOperandToContext_body].
    unfold malformed. cbn [type right]. rewrite Hr.
    destruct t; try discriminate; reflexivity.
  - intros Ht. destruct t; try discriminate; split; reflexivity.
Qed.

(** [a = <key b>], built without the builder, and [a = 1 AND <key b>]. *)
Definition eqWithKeyRight : Expression :=
  new_Expression EQ (new_Key "a") (Some (OKey (new_Key "b"))).
Definition andWithKeyRight : Expression :=
  new_Expression AND (b.eq "a" (Single (Num 1))) (Some (OKey (new_Key "b"))).

Lemma structural_validation_witness :
  convertOperandToContext TestFilterExpressionConverter 1
    (Some (OExpression eqWithKeyRight)) new_StringBuilder
  = (Throw MalformedExpression, new_StringBuilder)
  /\ malformed andWithKeyRight = false.
Proof.
  split.
  - apply (proj1 (structural_validation TestFilterExpressionConverter 0
                    eqWithKeyRight new_StringBuilder)); reflexivity.
  - apply (proj2 (structural_validation TestFilterExpressionConverter 0
                    andWithKeyRight new_StringBuilder)); reflexivity.
Defined.

(** What [convertSingleValueToContext] appends for a scalar. *)
Definition renderScalar (v : Scalar) : string :=
  match v with
  | Str s => "'" ++ s ++ "'"
  | _ => Scalar_toString v
  end.

(** The elements of [xs] with [sep] between consecutive ones. *)
Fixpoint separated (sep : string) (xs : list string) : list string :=
  match xs with
  | [] => []
  | x :: rest =>
      match rest with
      | [] => [x]
      | _ :: _ => x :: sep :: separated sep rest
      end
  end.

Lemma convertValueToContext_loop_Test (filterValue : Value)
      (rest : list Scalar) :
  forall (length i : nat) (sb : StringBuilder),
    length = i + List.length rest ->
    convertValueToContext_loop TestFilterExpressionConverter
                               filterValue length i rest sb
    = (Return tt,
       new_StringBuilder'
         (buffer sb ++ separated "," (map renderScalar rest))).
Proof.
  induction rest as [|x rest IH]; intros len i [buf] Hlen.
  - simpl. rewrite app_nil_r. reflexivity.
  - cbn [convertValueToContext_loop]. unfold bind at 1.
    assert (Hx : convertSingleValueToContext x (new_StringBuilder' buf)
                 = (Return tt, new_StringBuilder' (buf ++ [renderScalar x])))
      by (destruct x; reflexivity).
    rewrite Hx. unfold bind at 1.
    destruct rest as [|y rest'].
    + replace (Nat.ltb i (len - 1)) with false
        by (symmetry; apply Nat.ltb_ge; simpl in Hlen; lia).
      reflexivity.
    + replace (Nat.ltb i (len - 1)) with true
        by (symmetry; apply Nat.ltb_lt; simpl in Hlen; lia).
      cbn [writeValueRangeSeparator TestFilterExpressionConverter
           BaseFilterExpressionConverter append buffer].
      rewrite (IH len (S i)) by (simpl in *; lia).
      cbn [buffer map separated]. rewrite <- !app_assoc. reflexivity.
Qed.

(** C8.  List rendering in the reference dialect: [in("a",[2015,2018])]
    converts to ['$.a' IN [2015,2018]] and [nin("a",[2015,2018])] to
    ['$.a' NOT IN [2015,2018]]; in general an array value is appended as
    the range start, its elements with the separator between consecutive
    ones and none after the last, and the range end. *)
Theorem convertExpression_list (k : nat) :
  convertExpression TestFilterExpressionConverter (2 + k)
                    (b.in_ "a" [Num 2015; Num 2018])
  = Return "'$.a' IN [2015,2018]"
  /\ convertExpression TestFilterExpressionConverter (2 + k)
                       (b.nin "a" [Num 2015; Num 2018])
     = Return "'$.a' NOT IN [2015,2018]"
  /\ forall (xs : list Scalar) (sb : StringBuilder),
      convertValueToContext TestFilterExpressionConverter
                            (new_Value (Array xs)) sb
      = (Return tt,
         new_StringBuilder'
           (buffer sb ++ ["["] ++ separated "," (map renderScalar xs)
                   ++ ["]"])).
Proof.
  split; [vm_compute; reflexivity|]. split; [vm_compute; reflexivity|].
  intros xs [buf]. unfold convertValueToContext. cbn [value].
  unfold bind at 1. cbn [writeValueRangeStart TestFilterExpressionConverter
                         append buffer].
  unfold bind at 1.
  rewrite (convertValueToContext_loop_Test _ xs (List.length xs) 0)
    by reflexivity.
  cbn [writeValueRangeEnd TestFilterExpressionConverter].
  unfold append. cbn [buffer]. rewrite <- !app_assoc. reflexivity.
Qed.

(** C10.  The empty list: under the default hooks, converting a [Value]
    that wraps the empty array appends the two list delimiters and nothing
    between them, and throws nothing, so that it renders as [[]]; in the
    reference dialect [in("a", [])] converts to ['$.a' IN []]. *)
Theorem convertValueToContext_empty_array (k : nat) :
  (forall sb : StringBuilder,
      convertValueToContext BaseFilterExpressionConverter
                            (new_Value (Array [])) sb
      = (Return tt, new_StringBuilder' (buffer sb ++ ["["; "]"])))
  /\ convertOperand BaseFilterExpressionConverter (1 + k)
                    (OValue (new_Value (Array [])))
     = Return "[]"
  /\ b.in_ "a" [] = new_Expression IN (new_Key "a")
                                   (Some (OValue (new_Value (Array []))))
  /\ convertExpression TestFilterExpressionConverter (2 + k) (b.in_ "a" [])
     = Return "'$.a' IN []".
Proof.
  split.
  - intros [buf]. unfold convertValueToContext. simpl.
    unfold bind, append, ret. simpl. rewrite <- app_assoc. reflexivity.
  - split; [vm_compute; reflexivity|].
    split; [reflexivity|]. vm_compute. reflexivity.
Qed.

(* ================================================================== *)
(** ** Further properties of the negation engine *)
(* ================================================================== *)

(** The trees negation produces: no [NOT] among the logical nodes, both
    operands present under [AND] and [OR], and every group holding an
    expression (so never a group in a group). *)
Fixpoint normal (o : Operand) : bool :=
  match o with
  | OExpression (new_Expression t l r) =>
      match t with
      | AND | OR =>
          normal l && match r with Some r' => normal r' | None => false end
      | NOT => false
      | _ => true
      end
  | OGroup (new_Group c) =>
      match c with
      | OExpression _ => normal c
      | _ => false
      end
  | OKey _ | OValue _ => false
  end.

(** The comparison nodes of a tree from left to right, each with its tag
    and its two operands; the walk goes through groups and [NOT]s. *)
Fixpoint comparisons (o : Operand)
  : list (Operator * Operand * option Operand) :=
  match o with
  | OExpression (new_Expression t l r) =>
      match t with
      | AND | OR =>
          comparisons l ++
          match r with Some r' => comparisons r' | None => [] end
      | NOT => comparisons l
      | _ => [(t, l, r)]
      end
  | OGroup (new_Group c) => comparisons c
  | OKey _ | OValue _ => []
  end.

(** A comparison with its tag inverted. *)
Definition inverted (c : Operator * Operand * option Operand)
  : Operator * Operand * option Operand :=
  match c with (t, l, r) => (TYPE_NEGATION_MAP t, l, r) end.

(** [n] nested [new Expression(Operator.NOT, _)] around an operand. *)
Fixpoint nots (n : nat) (o : Operand) : Operand :=
  match n with
  | O => o
  | S n' => OExpression (new_Expression NOT (nots n' o) None)
  end.

(** The operand an exception of [negateOperand] reports is a [Key], a
    [Value] or [undefined]. *)
Definition notNegatable (e : Error) : Prop :=
  match e with
  | CannotNegateOperand None
  | CannotNegateOperand (Some (OKey _))
  | CannotNegateOperand (Some (OValue _)) => True
  | _ => False
  end.

Lemma negateOperand_Throw (o : Operand) (e : Error) :
  negateOperand o = Throw e -> notNegatable e.
Proof.
  revert e. induction o as [k|v|t l r IHl IHr|c IHc] using Operand_ind';
    intros e H; simpl in H.
  - injection H as <-. exact I.
  - injection H as <-. exact I.
  - destruct t; try discriminate; try (apply IHl; exact H);
      (destruct (negateOperand l) as [nl|el]; simpl in H;
       [|injection H as <-; apply IHl; reflexivity];
       destruct r as [r'|]; simpl in H;
       [|injection H as <-; exact I];
       destruct (negateOperand r') as [nr|er] eqn:Er; simpl in H;
       [discriminate|];
       injection H as <-; exact (IHr r' eq_refl _ Er)).
  - destruct (negateOperand c) as [x|ec]; simpl in H; [discriminate|].
    injection H as <-. apply IHc. reflexivity.
Qed.

Lemma normal_content_of_group (c : Operand) :
  normal (OGroup (new_Group c)) = true ->
  normal c = true /\ exists e, c = OExpression e.
Proof.
  simpl. destruct c as [k|v|e|g]; try discriminate.
  intros H. split; [exact H | eauto].
Qed.

Lemma negateOperand_normal (o : Operand) :
  forall o', negateOperand o = Return o' -> normal o' = true.
Proof.
  induction o as [k|v|t l r IHl IHr|c IHc] using Operand_ind';
    intros o' H; simpl in H; try discriminate.
  - destruct t; try (injection H as <-; reflexivity);
      try (apply IHl; exact H);
      (apply bindC_Return in H as (nl & Hl & H);
       apply bindC_Return in H as (nr & Hr & H);
       injection H as <-;
       destruct r as [r'|]; [|discriminate];
       simpl; rewrite (IHl _ Hl), (IHr r' eq_refl _ Hr); reflexivity).
  - apply bindC_Return in H as (x & Hx & H). injection H as <-.
    specialize (IHc _ Hx).
    pose proof (negateOperand_kind _ _ Hx) as Hk.
    destruct x as [k|v|e|[c']]; try contradiction.
    + exact IHc.
    + apply normal_content_of_group in IHc as (Hn & e & ->).
      exact Hn.
Qed.

Lemma negateOperand_involutive_on_normal (o : Operand) :
  normal o = true ->
  exists o', negateOperand o = Return o' /\ negateOperand o' = Return o.
Proof.
  induction o as [k|v|t l r IHl IHr|c IHc] using Operand_ind';
    simpl; try discriminate.
  - destruct t; try discriminate;
      try (intros _; eexists; split; reflexivity);
      (intros H; apply andb_true_iff in H as [Hl Hr];
       destruct r as [r'|]; [|discriminate];
       destruct (IHl Hl) as (nl & El & Bl);
       destruct (IHr r' eq_refl Hr) as (nr & Er & Br);
       rewrite El, Er; simpl;
       eexists; split; [reflexivity|];
       simpl; rewrite Bl, Br; reflexivity).
  - destruct c as [k|v|e|g]; try discriminate.
    intros H. destruct (IHc H) as (x & Ex & Bx).
    rewrite Ex. simpl.
    assert (Hx : exists e', x = OExpression e').
    { destruct e as [t l r]. simpl in Ex, H.
      destruct t; try discriminate;
        try (injection Ex as <-; eauto);
        (apply bindC_Return in Ex as (nl & _ & Ex);
         apply bindC_Return in Ex as (nr & _ & Ex);
         injection Ex as <-; eauto). }
    destruct Hx as [e' ->].
    eexists. split; [reflexivity|].
    simpl. simpl in Bx. rewrite Bx. reflexivity.
Qed.

(** X1.  Whatever [negateOperand] returns is in normal form: it has no
    [NOT] among its logical nodes, its [AND] and [OR] nodes have both
    operands, and each of its groups holds an expression; in particular the
    result is itself an expression or a group of an expression, so the cast
    [inEx as Expression] is never applied to anything else. *)
Theorem negateOperand_returns_normal (o o' : Operand) :
  negateOperand o = Return o' ->
  normal o' = true
  /\ ((exists e, o' = OExpression e)
      \/ (exists e, o' = OGroup (new_Group (OExpression e)))).
Proof.
  intros H. pose proof (negateOperand_normal _ _ H) as Hn.
  split; [exact Hn|].
  destruct o' as [k|v|e|[c]]; try discriminate.
  - left. eauto.
  - right. apply normal_content_of_group in Hn as (_ & e & ->). eauto.
Qed.

(** [NOT (NOT ((a = 1 AND NOT (b < 2))))], the inner pair in a group. *)
Definition nestedNots : Expression :=
  b.not (b.not (new_Expression NOT
                  (b.group (b.and (b.eq "a" (Single (Num 1)))
                                  (b.not (b.lt "b" (Single (Num 2))))))
                  None)).

Lemma negateOperand_returns_normal_witness :
  normal (OGroup (b.group (b.or (b.ne "a" (Single (Num 1)))
                                (b.gte "b" (Single (Num 2)))))) = true.
Proof.
  exact (proj1 (negateOperand_returns_normal nestedNots _ eq_refl)).
Defined.

(** X2.  On a tree in normal form (groups included, and whatever the
    operands of its comparisons are) [negateOperand] returns, and negating
    the result returns the tree itself. *)
Theorem negateOperand_normal_involutive (o : Operand) :
  normal o = true ->
  exists o', negateOperand o = Return o'
             /\ normal o' = true
             /\ negateOperand o' = Return o.
Proof.
  intros H. destruct (negateOperand_involutive_on_normal o H) as (o' & E & B).
  exists o'. split; [exact E|]. split; [|exact B].
  eapply negateOperand_normal. exact E.
Qed.

(** [a = 1 AND (b < 2 OR c IN [3])]. *)
Definition andWithGroup : Expression :=
  b.and (b.eq "a" (Single (Num 1)))
        (b.group (b.or (b.lt "b" (Single (Num 2))) (b.in_ "c" [Num 3]))).

Lemma negateOperand_normal_involutive_witness :
  exists o', negateOperand andWithGroup = Return o'
             /\ normal o' = true
             /\ negateOperand o' = Return (OExpression andWithGroup).
Proof. exact (negateOperand_normal_involutive andWithGroup eq_refl). Defined.

(** X3.  Three negations are one: on every operand, negating the negation
    of its negation gives what negating it once gives, the exception
    included. *)
Theorem negateOperand_thrice (o : Operand) :
  (o1 <- negateOperand o ;; o2 <- negateOperand o1 ;; negateOperand o2)
  = negateOperand o.
Proof.
  destruct (negateOperand o) as [o1|e] eqn:E; [|reflexivity].
  simpl.
  destruct (negateOperand_involutive_on_normal o1
              (negateOperand_normal _ _ E)) as (o2 & E2 & B2).
  rewrite E2. simpl. exact B2.
Qed.

(** X4.  [negateOperand] throws exactly on the operands that are not
    negatable, and what it throws is the cannot-negate error for a [Key], a
    [Value] or an absent right operand. *)
Theorem negateOperand_throws (o : Operand) :
  (negatable o = false <-> exists e, negateOperand o = Throw e)
  /\ (forall e, negateOperand o = Throw e -> notNegatable e).
Proof.
  split; [|intros e; apply negateOperand_Throw].
  pose proof (negateOperand_negatable o) as [H1 H2].
  destruct (negateOperand o) as [o'|e] eqn:E.
  - split.
    + intros Hn. rewrite H2 in Hn by eauto. discriminate.
    + intros [e H]. discriminate.
  - split; [eauto|]. intros _.
    destruct (negatable o); [|reflexivity].
    destruct (H1 eq_refl) as [o' H]. discriminate.
Qed.

(** [a = 1 AND <nothing>], built without the builder, in a group. *)
Definition groupOfHalfAnd : Group :=
  b.group (new_Expression AND (b.eq "a" (Single (Num 1))) None).

Lemma negateOperand_throws_witness :
  negatable groupOfHalfAnd = false
  /\ notNegatable (CannotNegateOperand None).
Proof.
  split.
  - apply (proj2 (proj1 (negateOperand_throws groupOfHalfAnd))).
    exists (CannotNegateOperand None). reflexivity.
  - apply (proj2 (negateOperand_throws groupOfHalfAnd)). reflexivity.
Defined.

(** X5.  Negation inverts the tag of every comparison of the tree exactly
    once and changes nothing else about them: the comparisons of the
    result are those of the operand, in the same order and with the same
    operands, each with the inverse tag -- also the ones below a [NOT]. *)
Theorem negateOperand_comparisons (o o' : Operand) :
  negateOperand o = Return o' ->
  comparisons o' = map inverted (comparisons o).
Proof.
  revert o'. induction o as [k|v|t l r IHl IHr|c IHc] using Operand_ind';
    intros o' H; simpl in H; try discriminate.
  - destruct t; try (injection H as <-; reflexivity);
      try (simpl; apply IHl; exact H);
      (apply bindC_Return in H as (nl & Hl & H);
       apply bindC_Return in H as (nr & Hr & H);
       injection H as <-;
       destruct r as [r'|]; [|discriminate];
       simpl; rewrite map_app, (IHl _ Hl), (IHr r' eq_refl _ Hr);
       reflexivity).
  - apply bindC_Return in H as (x & Hx & H). injection H as <-.
    specialize (IHc _ Hx). simpl.
    destruct x as [k|v|e|[c']]; exact IHc.
Qed.

Lemma negateOperand_comparisons_witness :
  comparisons (OGroup (b.group (b.or (b.ne "a" (Single (Num 1)))
                                     (b.gte "b" (Single (Num 2))))))
  = map inverted (comparisons nestedNots).
Proof. exact (negateOperand_comparisons nestedNots _ eq_refl). Defined.

(** X6.  [NOT] wrappers are discarded, not counted: negating an operand
    under any number of [NOT]s is negating the operand, so that in every
    dialect [not(not(e))] converts to what [not(e)] converts to. *)
Theorem negateOperand_nots (n : nat) (o : Operand) :
  negateOperand (nots n o) = negateOperand o
  /\ forall (this : FilterExpressionConverter) (fuel : nat) (e : Expression),
      convertExpression this fuel (b.not (b.not e))
      = convertExpression this fuel (b.not e).
Proof.
  split.
  - induction n as [|n IH]; [reflexivity | exact IH].
  - intros this [|fuel] e; reflexivity.
Qed.

(* ================================================================== *)
(** ** Further properties of the buffer and of the conversion walk *)
(* ================================================================== *)

Lemma string_app_nil_r (s : string) : (s ++ "")%string = s.
Proof. induction s as [|c s IH]; simpl; [reflexivity | rewrite IH; reflexivity]. Qed.

Lemma string_app_assoc (s1 s2 s3 : string) :
  ((s1 ++ s2) ++ s3 = s1 ++ (s2 ++ s3))%string.
Proof.
  induction s1 as [|c s1 IH]; simpl; [reflexivity | rewrite IH; reflexivity].
Qed.

Lemma concat_empty_cons (h : string) (t : list string) :
  String.concat "" (h :: t) = (h ++ String.concat "" t)%string.
Proof.
  destruct t as [|h' t]; simpl; [rewrite string_app_nil_r|]; reflexivity.
Qed.

Lemma concat_empty_app (l1 l2 : list string) :
  String.concat "" (l1 ++ l2)
  = (String.concat "" l1 ++ String.concat "" l2)%string.
Proof.
  induction l1 as [|h l1 IH]; [reflexivity|].
  rewrite <- app_comm_cons, !concat_empty_cons, IH, string_app_assoc.
  reflexivity.
Qed.

Lemma concat_empty_separated (sep : string) (l : list string) :
  String.concat "" (separated sep l) = String.concat sep l.
Proof.
  induction l as [|x l IH]; [reflexivity|].
  destruct l as [|y l]; [reflexivity|].
  change (separated sep (x :: y :: l))
    with (x :: sep :: separated sep (y :: l)).
  rewrite !concat_empty_cons, IH. reflexivity.
Qed.

(** X7.  [StringBuilder]: the string of a fresh builder is empty, and
    appending a string to a builder appends it to the string of the
    builder; in general the string of a buffer is the concatenation of the
    strings of its parts. *)
Theorem toString_append (sb : StringBuilder) (str : string)
        (l1 l2 : list string) :
  toString new_StringBuilder = ""
  /\ toString (snd (append str sb)) = (toString sb ++ str)%string
  /\ toString (new_StringBuilder' (l1 ++ l2))
     = (toString (new_StringBuilder' l1)
        ++ toString (new_StringBuilder' l2))%string.
Proof.
  split; [reflexivity|]. unfold toString, append. cbn [snd buffer]. split.
  - rewrite concat_empty_app. reflexivity.
  - apply concat_empty_app.
Qed.

(** [m] only appends to the buffer, and neither what it appends nor how it
    completes depends on what the buffer held. *)
Definition appends (m : M unit) : Prop :=
  exists c out, forall sb,
      m sb = (c, new_StringBuilder' (buffer sb ++ out)).

Lemma appends_append (s : string) : appends (append s).
Proof. exists (Return tt), [s]. reflexivity. Qed.

Lemma appends_ret : appends (ret tt).
Proof.
  exists (Return tt), []. intros [buf]. unfold ret. cbn [buffer].
  rewrite app_nil_r. reflexivity.
Qed.

Lemma appends_throw (e : Error) : appends (throw e).
Proof.
  exists (Throw e), []. intros [buf]. unfold throw. cbn [buffer].
  rewrite app_nil_r. reflexivity.
Qed.

Lemma appends_bind (m1 m2 : M unit) :
  appends m1 -> appends m2 -> appends (m1 >> m2).
Proof.
  intros (c1 & out1 & H1) (c2 & out2 & H2).
  destruct c1 as [[]|e].
  - exists c2, (out1 ++ out2). intros sb. unfold bind.
    rewrite H1, H2. cbn [buffer]. rewrite app_assoc. reflexivity.
  - exists (Throw e), out1. intros sb. unfold bind. rewrite H1. reflexivity.
Qed.

#[local] Hint Resolve appends_append appends_ret appends_throw appends_bind
  : walk.

Lemma appends_convertSymbolToContext (exp : Expression) :
  appends (convertSymbolToContext exp).
Proof.
  unfold convertSymbolToContext. destruct (type exp); simpl; auto with walk.
Qed.

Lemma appends_convertSingleValueToContext (v : Scalar) :
  appends (convertSingleValueToContext v).
Proof. destruct v; simpl; auto with walk. Qed.

#[local] Hint Resolve appends_convertSymbolToContext
  appends_convertSingleValueToContext : walk.

Lemma appends_convertValueToContext_Test (v : Value) :
  appends (convertValueToContext TestFilterExpressionConverter v).
Proof.
  unfold convertValueToContext. destruct (value v) as [s|xs];
    [auto with walk|].
  apply appends_bind; [simpl; auto with walk|].
  apply appends_bind; [|simpl; auto with walk].
  generalize 0 as i. generalize (List.length xs) as len.
  induction xs as [|x xs IH]; intros len i; simpl; [auto with walk|].
  apply appends_bind; [auto with walk|].
  apply appends_bind; [|apply IH].
  destruct (Nat.ltb i (len - 1)); auto with walk.
Qed.

Lemma appends_convertOperandToContext_Test (fuel : nat) :
  forall o : option Operand,
    appends (convertOperandToContext TestFilterExpressionConverter fuel o).
Proof.
  induction fuel as [|fuel IH]; intros o; [simpl; auto with walk|].
  simpl. destruct o as [[k|v|[t l r]|[c]]|]; simpl; auto with walk.
  - apply appends_convertValueToContext_Test.
  - destruct (malformed (new_Expression t l r)); [auto with walk|].
    destruct (Operator_eqb t NOT).
    + unfold convertNotExpressionToContext.
      destruct (negateOperand (new_Expression t l r)); auto with walk.
    + auto with walk.
  - unfold convertGroupToContext.
    apply appends_bind; [simpl; auto with walk|].
    apply appends_bind; [apply IH | simpl; auto with walk].
Qed.

(** X8.  The walk of the reference dialect only appends: for every budget
    and operand there are a completion and a list of tokens such that, on
    every buffer, the walk completes that way and leaves the buffer with
    those tokens appended -- also when it throws. *)
Theorem convertOperandToContext_appends (fuel : nat) (o : option Operand) :
  exists (c : Completion unit) (out : list string),
  forall sb : StringBuilder,
    convertOperandToContext TestFilterExpressionConverter fuel o sb
    = (c, new_StringBuilder' (buffer sb ++ out)).
Proof. apply appends_convertOperandToContext_Test. Qed.

(** What a successful [convertOperand] says about the walk on any
    buffer. *)
Lemma convertOperand_Return (fuel : nat) (o : Operand) (s : string) :
  convertOperand TestFilterExpressionConverter fuel o = Return s ->
  exists out, toString (new_StringBuilder' out) = s
              /\ forall sb,
                  convertOperandToContext TestFilterExpressionConverter
                                          fuel (Some o) sb
                  = (Return tt, new_StringBuilder' (buffer sb ++ out)).
Proof.
  unfold convertOperand.
  destruct (appends_convertOperandToContext_Test fuel (Some o))
    as (c & out & H).
  rewrite H. cbn [buffer app]. destruct c as [[]|e]; [|discriminate].
  intros [= <-]. exists out. split; [reflexivity | exact H].
Qed.

(** X9.  Rendering composes in the reference dialect: when [a] converts to
    [sa] and [b] to [sb], [and(a, b)] converts to [sa AND sb], [or(a, b)]
    to [sa OR sb], and the group of [a] to [(sa)]. *)
Theorem convertExpression_compose (fuel : nat) (a b0 : Operand)
        (sa sb : string) :
  convertOperand TestFilterExpressionConverter fuel a = Return sa ->
  convertOperand TestFilterExpressionConverter fuel b0 = Return sb ->
  convertExpression TestFilterExpressionConverter (S fuel) (b.and a b0)
  = Return (sa ++ " AND " ++ sb)%string
  /\ convertExpression TestFilterExpressionConverter (S fuel) (b.or a b0)
     = Return (sa ++ " OR " ++ sb)%string
  /\ convertOperand TestFilterExpressionConverter (S fuel)
                    (OGroup (new_Group a))
     = Return ("(" ++ sa ++ ")")%string.
Proof.
  intros Ha Hb.
  apply convertOperand_Return in Ha as (oa & <- & Ha).
  apply convertOperand_Return in Hb as (ob & <- & Hb).
  unfold convertExpression, convertOperand, toString.
  set (cat := String.concat "").
  repeat split; simpl; unfold convertGroupToContext, bind; simpl;
    rewrite ?Ha, ?Hb; simpl; rewrite ?Ha, ?Hb; simpl; subst cat;
    rewrite ?concat_empty_app, ?concat_empty_cons, ?concat_empty_app;
    cbn [String.concat];
    rewrite ?string_app_nil_r, ?string_app_assoc; reflexivity.
Qed.

Lemma convertExpression_compose_witness :
  convertExpression TestFilterExpressionConverter 3
    (b.and (b.eq "name" (Single (Str "martin")))
           (b.gte "birth" (Single (Num 2023))))
  = Return ("'$.name' = 'martin'" ++ " AND " ++ "'$.birth' >= 2023")%string.
Proof.
  apply (convertExpression_compose 2
           (b.eq "name" (Single (Str "martin")))
           (b.gte "birth" (Single (Num 2023)))); reflexivity.
Defined.

(** The tokens [convertValueToContext] appends for a value, and the string
    they make. *)
Definition valueTokens (v : FilterValue) : list string :=
  match v with
  | Single s => [renderScalar s]
  | Array xs => ["["] ++ separated "," (map renderScalar xs) ++ ["]"]
  end.

Definition renderValue (v : FilterValue) : string :=
  match v with
  | Single s => renderScalar s
  | Array xs =>
      ("[" ++ String.concat "," (map renderScalar xs) ++ "]")%string
  end.

Lemma convertValueToContext_Test_tokens (v : Value) (sb : StringBuilder) :
  convertValueToContext TestFilterExpressionConverter v sb
  = (Return tt, new_StringBuilder' (buffer sb ++ valueTokens (value v))).
Proof.
  destruct v as [[s|xs]]; destruct sb as [buf];
    unfold convertValueToContext; cbn [value valueTokens buffer].
  - destruct s; reflexivity.
  - unfold bind at 1.
    cbn [writeValueRangeStart TestFilterExpressionConverter append buffer].
    unfold bind at 1.
    rewrite (convertValueToContext_loop_Test _ xs (List.length xs) 0)
      by reflexivity.
    cbn [writeValueRangeEnd TestFilterExpressionConverter].
    unfold append. cbn [buffer]. rewrite <- !app_assoc. reflexivity.
Qed.

Lemma concat_valueTokens (v : FilterValue) :
  String.concat "" (valueTokens v) = renderValue v.
Proof.
  destruct v as [s|xs]; [reflexivity|].
  unfold valueTokens, renderValue.
  rewrite !concat_empty_app, concat_empty_separated. reflexivity.
Qed.

Lemma convertExpression_leaf_Test (t : Operator) (k : Key) (v : Value)
      (n : nat) :
  isComparison t = true ->
  exists sym,
    symbolMap t = Some sym
    /\ convertExpression TestFilterExpressionConverter (2 + n)
                         (new_Expression t k (Some (OValue v)))
       = Return ("'$." ++ key k ++ "'" ++ sym ++ renderValue (value v))%string.
Proof.
  intros Ht.
  assert (H : forall sym, symbolMap t = Some sym -> sym <> ""%string ->
              convertExpression TestFilterExpressionConverter (2 + n)
                                (new_Expression t k (Some (OValue v)))
              = Return ("'$." ++ key k ++ "'" ++ sym
                               ++ renderValue (value v))%string).
  { intros sym Hs Hne.
    unfold convertExpression, convertOperand.
    cbn [Nat.add convertOperandToContext convertOperandToContext_body].
    replace (malformed (new_Expression t k (Some (OValue v)))) with false
      by (destruct t; try discriminate; reflexivity).
    replace (Operator_eqb (type (new_Expression t k (Some (OValue v)))) NOT)
      with false by (destruct t; try discriminate; reflexivity).
    cbn [convertExpressionToContext TestFilterExpressionConverter left right].
    cbn [convertOperandToContext convertOperandToContext_body
         convertKeyToContext TestFilterExpressionConverter].
    unfold bind, convertSymbolToContext.
    cbn [type append new_StringBuilder buffer app].
    rewrite Hs. destruct sym as [|c sym]; [congruence|].
    cbn [append buffer app].
    rewrite convertValueToContext_Test_tokens.
    unfold toString. cbn [buffer].
    cbn [buffer app].
    rewrite !concat_empty_cons, concat_valueTokens, !string_app_assoc.
    reflexivity. }
  destruct t; try discriminate; eexists; (split; [reflexivity|]);
    apply H; (reflexivity || discriminate).
Qed.

(** [Number.isSafeInteger]: the integers of magnitude at most
    [Number.MAX_SAFE_INTEGER = 2^53 - 1]. *)
Definition safeInteger (n : Z) : bool :=
  (Z.abs n <=? 2 ^ 53 - 1)%Z.

(** The scalars and values all of whose numbers are safe integers. *)
Definition safeScalar (s : Scalar) : bool :=
  match s with
  | Num n => safeInteger n
  | Str _ | Bool _ => true
  end.

Definition safeValue (v : FilterValue) : bool :=
  match v with
  | Single s => safeScalar s
  | Array xs => forallb safeScalar xs
  end.

(** X10.  Rendering of the builder's comparisons in the reference dialect,
    for the values whose numbers are safe integers: for such a truthy
    value, each of [eq], [ne], [gt], [gte], [lt], [lte] converts to the
    quoted key path, the symbol of its tag and the rendered value; [in]
    and [nin] do so for every such array, with the elements between
    brackets and separated by commas. *)
Theorem convertExpression_comparison
        (m : string -> FilterValue -> Expression) (op : Operator)
        (key : string) (v : FilterValue) (xs : list Scalar) (n : nat) :
  (In (m, op) comparisonMethods ->
   truthy v = true ->
   safeValue v = true ->
   exists sym,
     symbolMap op = Some sym
     /\ convertExpression TestFilterExpressionConverter (2 + n) (m key v)
        = Return ("'$." ++ key ++ "'" ++ sym ++ renderValue v)%string)
  /\ (safeValue (Array xs) = true ->
      convertExpression TestFilterExpressionConverter (2 + n) (b.in_ key xs)
      = Return ("'$." ++ key ++ "'" ++ " IN "
                       ++ renderValue (Array xs))%string
      /\ convertExpression TestFilterExpressionConverter (2 + n)
                           (b.nin key xs)
         = Return ("'$." ++ key ++ "'" ++ " NOT IN "
                          ++ renderValue (Array xs))%string).
Proof.
  split.
  - intros Hm Hv _.
    assert (E : m key v
                = new_Expression op (new_Key key)
                                 (Some (OValue (new_Value v)))).
    { simpl in Hm.
      destruct Hm as [H|[H|[H|[H|[H|[H|[]]]]]]]; injection H as <- <-;
        cbv [b.eq b.ne b.gt b.gte b.lt b.lte]; rewrite Hv; reflexivity. }
    rewrite E.
    apply (convertExpression_leaf_Test op (new_Key key) (new_Value v) n).
    simpl in Hm.
    destruct Hm as [H|[H|[H|[H|[H|[H|[]]]]]]]; injection H as _ <-;
      reflexivity.
  - intros _. split.
    + destruct (convertExpression_leaf_Test IN (new_Key key)
                  (new_Value (Array xs)) n eq_refl) as (sym & [= <-] & H).
      exact H.
    + destruct (convertExpression_leaf_Test NIN (new_Key key)
                  (new_Value (Array xs)) n eq_refl) as (sym & [= <-] & H).
      exact H.
Qed.

Lemma convertExpression_comparison_witness :
  (exists sym,
      symbolMap LTE = Some sym
      /\ convertExpression TestFilterExpressionConverter 2
                           (b.lte "a" (Single (Num 2015)))
         = Return ("'$." ++ "a" ++ "'" ++ sym
                          ++ renderValue (Single (Num 2015)))%string)
  /\ convertExpression TestFilterExpressionConverter 2
                       (b.in_ "a" [Num 2015; Num 2018])
     = Return ("'$." ++ "a" ++ "'" ++ " IN "
                      ++ renderValue (Array [Num 2015; Num 2018]))%string
  /\ convertExpression TestFilterExpressionConverter 2
                       (b.nin "a" [Num 2015; Num 2018])
     = Return ("'$." ++ "a" ++ "'" ++ " NOT IN "
                      ++ renderValue (Array [Num 2015; Num 2018]))%string.
Proof.
  pose proof (convertExpression_comparison b.lte LTE "a"
                (Single (Num 2015)) [Num 2015; Num 2018] 0) as [H1 H2].
  split.
  - apply H1.
    + simpl. auto 10.
    + reflexivity.
    + reflexivity.
  - apply H2. reflexivity.
Defined.

(** X11.  In every dialect and for every key and value, the negation of a
    builder comparison converts to what the comparison with the inverse
    tag converts to: [not(eq)] as [ne], [not(ne)] as [eq], [not(gt)] as
    [lte], [not(gte)] as [lt], [not(lt)] as [gte], [not(lte)] as [gt],
    [not(in)] as [nin] and [not(nin)] as [in]; eliminating the [NOT] takes
    one level of the budget. *)
Theorem convertExpression_not_comparison (this : FilterExpressionConverter)
        (fuel : nat) (key : string) (v : FilterValue) (xs : list Scalar) :
  convertExpression this (S fuel) (b.not (b.eq key v))
  = convertExpression this fuel (b.ne key v)
  /\ convertExpression this (S fuel) (b.not (b.ne key v))
     = convertExpression this fuel (b.eq key v)
  /\ convertExpression this (S fuel) (b.not (b.gt key v))
     = convertExpression this fuel (b.lte key v)
  /\ convertExpression this (S fuel) (b.not (b.gte key v))
     = convertExpression this fuel (b.lt key v)
  /\ convertExpression this (S fuel) (b.not (b.lt key v))
     = convertExpression this fuel (b.gte key v)
  /\ convertExpression this (S fuel) (b.not (b.lte key v))
     = convertExpression this fuel (b.gt key v)
  /\ convertExpression this (S fuel) (b.not (b.in_ key xs))
     = convertExpression this fuel (b.nin key xs)
  /\ convertExpression this (S fuel) (b.not (b.nin key xs))
     = convertExpression this fuel (b.in_ key xs).
Proof. repeat split; reflexivity. Qed.

Lemma convertExpression_de_morgan_witness :
  convertExpression TestFilterExpressionConverter 4
    (b.not (b.and (b.eq "name" (Single (Str "martin")))
                  (b.lt "birth" (Single (Num 2023)))))
  = Return "'$.name' != 'martin' OR '$.birth' >= 2023"
  /\ convertExpression TestFilterExpressionConverter 4
       (b.not (b.or (b.eq "name" (Single (Str "martin")))
                    (b.lt "birth" (Single (Num 2023)))))
     = Return "'$.name' != 'martin' AND '$.birth' >= 2023"
  /\ convertExpression TestFilterExpressionConverter 3
       (b.or (b.ne "name" (Single (Str "martin")))
             (b.gte "birth" (Single (Num 2023))))
     = Return "'$.name' != 'martin' OR '$.birth' >= 2023"
  /\ convertExpression TestFilterExpressionConverter 3
       (b.and (b.ne "name" (Single (Str "martin")))
              (b.gte "birth" (Single (Num 2023))))
     = Return "'$.name' != 'martin' AND '$.birth' >= 2023".
Proof.
  destruct (convertExpression_de_morgan TestFilterExpressionConverter 3
              (b.eq "name" (Single (Str "martin")))
              (b.lt "birth" (Single (Num 2023)))
              (b.ne "name" (Single (Str "martin")))
              (b.gte "birth" (Single (Num 2023)))
              eq_refl eq_refl) as [Hand Hor].
  split; [rewrite Hand; reflexivity|].
  split; [rewrite Hor; reflexivity|].
  split; reflexivity.
Defined.

(* ================================================================== *)
(** ** Which conversions return and which throw *)
(* ================================================================== *)

(** Trees as the data model has them: comparisons with a [Key] on the left
    and a [Value] on the right, [AND] and [OR] with two such trees, [NOT]
    and groups around one. *)
Fixpoint wellFormed (o : Operand) : bool :=
  match o with
  | OExpression (new_Expression t l r) =>
      match t with
      | AND | OR =>
          wellFormed l &&
          match r with Some r' => wellFormed r' | None => false end
      | NOT => wellFormed l
      | _ => isLeafComparison (new_Expression t l r)
      end
  | OGroup (new_Group c) => wellFormed c
  | OKey _ | OValue _ => false
  end.

(** The exceptions of the walk of a dialect that implements its hooks. *)
Definition walkError (e : Error) : Prop :=
  e = MalformedExpression \/ e = TypeError \/ notNegatable e.

(** The exceptions of the walk of the base class. *)
Definition baseError (e : Error) : Prop :=
  e = MustBeImplemented \/ e = MalformedExpression \/ notNegatable e.

(** [m] returns on every buffer. *)
Definition returns (m : M unit) : Prop :=
  forall sb, exists sb', m sb = (Return tt, sb').

(** Every exception of [m] is in [P]. *)
Definition throwsIn (P : Error -> Prop) (m : M unit) : Prop :=
  forall sb e sb', m sb = (Throw e, sb') -> P e.

Lemma returns_append (s : string) : returns (append s).
Proof. intros sb. eexists. reflexivity. Qed.

Lemma returns_bind (m1 m2 : M unit) :
  returns m1 -> returns m2 -> returns (m1 >> m2).
Proof.
  intros H1 H2 sb. unfold bind. destruct (H1 sb) as [sb1 ->]. apply H2.
Qed.

Lemma returns_throwsIn (P : Error -> Prop) (m : M unit) :
  returns m -> throwsIn P m.
Proof. intros H sb e sb' E. destruct (H sb) as [sb1 H1]. congruence. Qed.

Lemma throwsIn_throw (P : Error -> Prop) (e : Error) :
  P e -> throwsIn P (throw e).
Proof. intros H sb e' sb' [= <- _]. exact H. Qed.

Lemma throwsIn_bind (P : Error -> Prop) (m1 m2 : M unit) :
  throwsIn P m1 -> throwsIn P m2 -> throwsIn P (m1 >> m2).
Proof.
  intros H1 H2 sb e sb' E. unfold bind in E.
  destruct (m1 sb) as [[a|e1] sb1] eqn:E1.
  - eapply H2. exact E.
  - injection E as <- <-. eapply H1. exact E1.
Qed.

Lemma returns_convertSymbolToContext (exp : Expression) :
  returns (convertSymbolToContext exp).
Proof.
  unfold convertSymbolToContext. destruct (type exp); apply returns_append.
Qed.

Lemma returns_convertValueToContext_Test (v : Value) :
  returns (convertValueToContext TestFilterExpressionConverter v).
Proof.
  intros sb. rewrite convertValueToContext_Test_tokens. eauto.
Qed.

Lemma negateOperand_wellFormed (o : Operand) :
  wellFormed o = true ->
  exists o', negateOperand o = Return o' /\ wellFormed o' = true.
Proof.
  induction o as [k|v|t l r IHl IHr|c IHc] using Operand_ind';
    simpl; try discriminate.
  - assert (Hleaf : isLeafComparison (new_Expression t l r) = true ->
                    exists o',
                      negateOperand (new_Expression t l r) = Return o'
                      /\ wellFormed o' = true).
    { intros H. pose proof H as H'. unfold isLeafComparison in H'.
      cbn [type left right] in H'.
      apply andb_true_iff in H' as [Ht Hlr].
      rewrite negateOperand_comparison by exact Ht.
      eexists. split; [reflexivity|].
      assert (isLeafComparison
                (new_Expression (TYPE_NEGATION_MAP t) l r) = true) as Hn
          by (unfold isLeafComparison; cbn [type left right];
              rewrite TYPE_NEGATION_MAP_comparison, Ht; exact Hlr).
      destruct t; try discriminate; exact Hn. }
    destruct t; try exact Hleaf; try exact IHl;
      (intros H; apply andb_true_iff in H as [Hl Hr];
       destruct r as [r'|]; [|discriminate];
       destruct (IHl Hl) as (nl & El & Tl);
       destruct (IHr r' eq_refl Hr) as (nr & Er & Tr);
       simpl; rewrite El, Er; simpl;
       eexists; split; [reflexivity|]; simpl; rewrite Tl, Tr; reflexivity).
  - intros H. destruct (IHc H) as (x & Ex & Tx). rewrite Ex. simpl.
    eexists. split; [reflexivity|].
    destruct x as [k|v|e|[c']]; exact Tx.
Qed.

Lemma returns_convertOperandToContext_Test (fuel : nat) :
  forall o : Operand,
    wellFormed o = true -> depth o <= fuel ->
    returns (convertOperandToContext TestFilterExpressionConverter fuel
                                     (Some o)).
Proof.
  induction fuel as [|fuel IH]; intros o Hw Hd;
    [pose proof (depth_pos o); lia|].
  destruct o as [k|v|[t l r]|[c]]; try discriminate.
  - cbn [convertOperandToContext convertOperandToContext_body].
    destruct (Operator_eqb t NOT) eqn:Et.
    + (* NOT *)
      destruct t; try discriminate.
      cbn [malformed type right Operator_eqb negb andb].
      unfold convertNotExpressionToContext.
      simpl in Hw, Hd.
      destruct (negateOperand_wellFormed l Hw) as (o' & E & Hw').
      simpl. rewrite E. apply IH; [exact Hw'|].
      apply negateOperand_depth in E. lia.
    + destruct (isComparison t) eqn:Ec.
      * (* a comparison *)
        assert (Hl : isLeafComparison (new_Expression t l r) = true)
          by (destruct t; try discriminate; exact Hw).
        unfold isLeafComparison in Hl. cbn [type left right] in Hl.
        apply andb_true_iff in Hl as [_ Hl].
        destruct l as [k| | |]; try discriminate.
        destruct r as [[|v| |]|]; try discriminate.
        replace (malformed (new_Expression t k (Some (OValue v))))
          with false by (destruct t; try discriminate; reflexivity).
        cbn [type]. rewrite Et.
        cbn [convertExpressionToContext TestFilterExpressionConverter
             left right].
        simpl in Hd. destruct fuel as [|fuel]; [lia|].
        apply returns_bind; [apply returns_append|].
        apply returns_bind; [apply returns_convertSymbolToContext|].
        apply returns_convertValueToContext_Test.
      * (* AND, OR *)
        assert (Hw' : wellFormed l = true
                      /\ exists r', r = Some r' /\ wellFormed r' = true).
        { destruct t; try discriminate; simpl in Hw;
            apply andb_true_iff in Hw as [Hl Hr];
            (destruct r as [r'|]; [|discriminate]); eauto. }
        destruct Hw' as (Hl & r' & -> & Hr).
        replace (malformed (new_Expression t l (Some r'))) with false
          by (destruct t; try discriminate; reflexivity).
        cbn [type]. rewrite Et.
        cbn [convertExpressionToContext TestFilterExpressionConverter
             left right].
        simpl in Hd.
        apply returns_bind; [apply IH; [exact Hl | lia]|].
        apply returns_bind; [apply returns_convertSymbolToContext|].
        apply IH; [exact Hr | lia].
  - cbn [convertOperandToContext convertOperandToContext_body].
    unfold convertGroupToContext. simpl in Hw, Hd.
    apply returns_bind; [apply returns_append|].
    apply returns_bind; [|apply returns_append].
    apply IH; [exact Hw | cbn [content]; lia].
Qed.

(** X14.  Every well-formed expression converts in the reference dialect:
    on a tree of comparisons with a [Key] on the left and a [Value] on the
    right, combined by [AND], [OR], [NOT] and groups, [convertExpression]
    returns a string, with every budget from the depth of the tree on. *)
Theorem convertExpression_wellFormed (expression : Expression) (k : nat) :
  wellFormed expression = true ->
  exists s, convertExpression TestFilterExpressionConverter
                              (depth expression + k) expression
            = Return s.
Proof.
  intros Hw. unfold convertExpression, convertOperand.
  destruct (returns_convertOperandToContext_Test (depth expression + k)
              expression Hw (Nat.le_add_r _ _) new_StringBuilder)
    as [sb' ->].
  eauto.
Qed.

Lemma convertExpression_wellFormed_witness :
  exists s, convertExpression TestFilterExpressionConverter
                              (depth nestedNots + 0) nestedNots
            = Return s.
Proof. exact (convertExpression_wellFormed nestedNots 0 eq_refl). Defined.

Lemma throwsIn_convertOperandToContext_Test (fuel : nat) :
  forall o : option Operand,
    throwsIn (fun e => e = OutOfFuel \/ walkError e)
             (convertOperandToContext TestFilterExpressionConverter fuel o).
Proof.
  unfold walkError.
  induction fuel as [|fuel IH]; intros o;
    [apply throwsIn_throw; auto|].
  cbn [convertOperandToContext].
  destruct o as [[k|v|[t l r]|[c]]|]; cbn [convertOperandToContext_body].
  - apply returns_throwsIn, returns_append.
  - apply returns_throwsIn, returns_convertValueToContext_Test.
  - destruct (malformed (new_Expression t l r));
      [apply throwsIn_throw; auto|].
    destruct (Operator_eqb (type (new_Expression t l r)) NOT).
    + unfold convertNotExpressionToContext.
      destruct (negateOperand (new_Expression t l r)) as [o'|e] eqn:E;
        [apply IH|].
      apply throwsIn_throw. apply negateOperand_Throw in E. auto.
    + cbn [convertExpressionToContext TestFilterExpressionConverter].
      apply throwsIn_bind; [apply IH|].
      apply throwsIn_bind; [|apply IH].
      apply returns_throwsIn, returns_convertSymbolToContext.
  - unfold convertGroupToContext.
    apply throwsIn_bind; [apply returns_throwsIn, returns_append|].
    apply throwsIn_bind; [apply IH|].
    apply returns_throwsIn, returns_append.
  - apply throwsIn_throw. auto.
Qed.

(** X15.  The reference dialect throws three exceptions only: when
    [convertExpression], with a budget of at least the depth of the
    expression, throws, the exception is the malformed-expression error,
    the [TypeError] of a missing operand, or the cannot-negate error for a
    [Key], a [Value] or a missing operand. *)
Theorem convertExpression_Test_errors (expression : Expression) (k : nat)
        (e : Error) :
  convertExpression TestFilterExpressionConverter
                    (depth expression + k) expression
  = Throw e ->
  walkError e.
Proof.
  intros H.
  destruct (convertExpression_Test_total expression k) as [Heq Hne].
  assert (He : e <> OutOfFuel) by (intros ->; apply Hne; congruence).
  unfold convertExpression, convertOperand in H.
  destruct (convertOperandToContext TestFilterExpressionConverter
              (depth expression + k) (Some (OExpression expression))
              new_StringBuilder) as [[[]|e'] sb'] eqn:E; [discriminate|].
  injection H as ->.
  destruct (throwsIn_convertOperandToContext_Test _ _ _ _ _ E) as [->|Hw];
    [congruence | exact Hw].
Qed.

Lemma convertExpression_Test_errors_witness : walkError MalformedExpression.
Proof.
  exact (convertExpression_Test_errors eqWithKeyRight 0 MalformedExpression
           eq_refl).
Defined.

(** X13.  The walk of the reference dialect ends: with a budget equal to
    the depth of the expression [convertExpression] does not stop for lack
    of budget, and with every larger budget it completes in the same way,
    with the same string or the same exception. *)
Theorem convertExpression_budget (expression : Expression) (k : nat) :
  convertExpression TestFilterExpressionConverter
                    (depth expression) expression
  <> Throw OutOfFuel
  /\ convertExpression TestFilterExpressionConverter
                       (depth expression + k) expression
     = convertExpression TestFilterExpressionConverter
                         (depth expression) expression.
Proof.
  destruct (convertExpression_Test_total expression k) as [Heq Hne].
  split; assumption.
Qed.

(** An expression, or a group of one. *)
Definition exprOrGroup (o : Operand) : bool :=
  match o with
  | OExpression _ => true
  | OGroup (new_Group (OExpression _)) => true
  | _ => false
  end.

Lemma negateOperand_exprOrGroup (o o' : Operand) :
  negateOperand o = Return o' -> exprOrGroup o' = true.
Proof.
  intros H. pose proof (negateOperand_normal _ _ H) as Hn.
  destruct o' as [k|v|e|[c]]; try discriminate; [reflexivity|].
  apply normal_content_of_group in Hn as (_ & e & ->). reflexivity.
Qed.

Lemma throws_convertOperandToContext_Base (fuel : nat) :
  forall (o : Operand) (sb : StringBuilder),
    exprOrGroup o = true -> depth o <= fuel ->
    exists e sb',
      convertOperandToContext BaseFilterExpressionConverter fuel (Some o) sb
      = (Throw e, sb')
      /\ baseError e.
Proof.
  unfold baseError.
  induction fuel as [|fuel IH]; intros o sb Ho Hd;
    [pose proof (depth_pos o); lia|].
  cbn [convertOperandToContext].
  destruct o as [k|v|[t l r]|[c]]; try discriminate;
    cbn [convertOperandToContext_body].
  - destruct (malformed (new_Expression t l r));
      [unfold throw; eauto 6|].
    destruct (Operator_eqb (type (new_Expression t l r)) NOT) eqn:Et.
    + destruct t; try discriminate.
      unfold convertNotExpressionToContext. simpl in Hd.
      change (negateOperand (OExpression (new_Expression NOT l r)))
        with (negateOperand l).
      destruct (negateOperand l) as [o'|e] eqn:E.
      * apply IH; [eapply negateOperand_exprOrGroup; exact E|].
        apply negateOperand_depth in E. lia.
      * apply negateOperand_Throw in E. unfold throw. eauto 6.
    + cbn [convertExpressionToContext BaseFilterExpressionConverter].
      unfold throw. eauto 6.
  - destruct c as [| |e|]; try discriminate.
    unfold convertGroupToContext, bind.
    cbn [writeGroupStart BaseFilterExpressionConverter ret content].
    change (S (depth (OExpression e)) <= S fuel) in Hd.
    destruct (IH (OExpression e) sb eq_refl) as (err & sb' & -> & He);
      [lia|].
    eauto.
Qed.

(** X16.  The base class converts no expression: with every budget from
    the depth of the expression on, its [convertExpression] throws -- the
    must-be-implemented error of a hook, or the malformed-expression or
    cannot-negate error met before a hook is reached. *)
Theorem convertExpression_Base_throws (expression : Expression) (k : nat) :
  exists e, convertExpression BaseFilterExpressionConverter
                              (depth expression + k) expression
            = Throw e
            /\ baseError e.
Proof.
  unfold convertExpression, convertOperand.
  destruct (throws_convertOperandToContext_Base (depth expression + k)
              expression new_StringBuilder eq_refl (Nat.le_add_r _ _))
    as (e & sb' & -> & He).
  eauto.
Qed.

(** A successful [convertOperand], on any buffer and with any larger
    budget. *)
Lemma convertOperand_Return_mono (fuel k : nat) (o : Operand) (s : string) :
  convertOperand TestFilterExpressionConverter fuel o = Return s ->
  exists out, toString (new_StringBuilder' out) = s
              /\ forall sb,
                  convertOperandToContext TestFilterExpressionConverter
                                          (fuel + k) (Some o) sb
                  = (Return tt, new_StringBuilder' (buffer sb ++ out)).
Proof.
  intros H. apply convertOperand_Return in H as (out & Hs & H).
  exists out. split; [exact Hs|]. intros sb.
  apply (convertOperandToContext_fuel_mono fuel k (Some o));
    [apply H | discriminate].
Qed.

(** X17.  An [AND] or [OR] without its right operand: in the reference
    dialect, when the left operand converts, converting the expression
    throws the [TypeError] of reading a property of [undefined]; under a
    [NOT], in every dialect, when the left operand can be negated, it
    throws the cannot-negate error for [undefined]. *)
Theorem convertExpression_missing_right (t : Operator) (l : Operand)
        (fuel : nat) :
  t = AND \/ t = OR ->
  ((exists s, convertOperand TestFilterExpressionConverter fuel l
              = Return s) ->
   convertExpression TestFilterExpressionConverter (S fuel)
                     (new_Expression t l None)
   = Throw TypeError)
  /\ ((exists nl, negateOperand l = Return nl) ->
      forall this : FilterExpressionConverter,
        convertExpression this (S fuel) (b.not (new_Expression t l None))
        = Throw (CannotNegateOperand None)).
Proof.
  intros Ht. split.
  - intros [s H].
    destruct fuel as [|fuel]; [discriminate|].
    apply convertOperand_Return in H as (out & _ & H).
    unfold convertExpression, convertOperand.
    remember (S fuel) as f eqn:Ef.
    cbn [convertOperandToContext convertOperandToContext_body].
    destruct Ht as [-> | ->];
      cbn [malformed type right Operator_eqb negb andb
           convertExpressionToContext TestFilterExpressionConverter left];
      unfold bind; rewrite H; subst f; reflexivity.
  - intros [nl H] this. unfold convertExpression, convertOperand.
    cbn [convertOperandToContext convertOperandToContext_body].
    cbn [malformed type right Operator_eqb negb andb b.not].
    unfold convertNotExpressionToContext.
    destruct Ht as [-> | ->]; simpl; rewrite H; reflexivity.
Qed.

Lemma convertExpression_missing_right_witness :
  convertExpression TestFilterExpressionConverter 3
    (new_Expression OR (b.eq "a" (Single (Num 1))) None)
  = Throw TypeError
  /\ convertExpression BaseFilterExpressionConverter 3
       (b.not (new_Expression OR (b.eq "a" (Single (Num 1))) None))
     = Throw (CannotNegateOperand None).
Proof.
  pose proof (convertExpression_missing_right OR
                (b.eq "a" (Single (Num 1))) 2 (or_intror eq_refl)) as H.
  split.
  - apply (proj1 H). eexists. reflexivity.
  - apply (proj2 H). eexists. reflexivity.
Defined.

(** X18.  Nesting is rendered only by groups: in the reference dialect,
    when [a], [b] and [c] convert to [sa], [sb] and [sc], the two trees
    [and(a, or(b, c))] and [or(and(a, b), c)] convert to the same string
    [sa AND sb OR sc]. *)
Theorem convertExpression_nesting (fuel : nat) (a b0 c : Operand)
        (sa sb sc : string) :
  convertOperand TestFilterExpressionConverter fuel a = Return sa ->
  convertOperand TestFilterExpressionConverter fuel b0 = Return sb ->
  convertOperand TestFilterExpressionConverter fuel c = Return sc ->
  convertExpression TestFilterExpressionConverter (S (S fuel))
                    (b.and a (b.or b0 c))
  = Return (sa ++ " AND " ++ sb ++ " OR " ++ sc)%string
  /\ convertExpression TestFilterExpressionConverter (S (S fuel))
                       (b.or (b.and a b0) c)
     = Return (sa ++ " AND " ++ sb ++ " OR " ++ sc)%string.
Proof.
  intros Ha Hb Hc.
  pose proof (convertOperand_Return_mono fuel 1 _ _ Ha) as (oa' & Ea' & Ha').
  pose proof (convertOperand_Return_mono fuel 1 _ _ Hc) as (oc' & Ec' & Hc').
  rewrite Nat.add_1_r in Ha', Hc'.
  apply convertOperand_Return in Ha as (oa & <- & Ha).
  apply convertOperand_Return in Hb as (ob & <- & Hb).
  apply convertOperand_Return in Hc as (oc & <- & Hc).
  unfold toString in *. cbn [buffer] in *.
  unfold convertExpression, convertOperand, toString.
  set (cat := String.concat "") in *.
  remember (S fuel) as f eqn:Ef.
  assert (Hw : forall o, convertOperandToContext
                           TestFilterExpressionConverter f o
                         = convertOperandToContext_body
                             TestFilterExpressionConverter
                             (convertOperandToContext
                                TestFilterExpressionConverter fuel) o)
    by (subst f; reflexivity).
  split.
  - cbn [convertOperandToContext convertOperandToContext_body b.and
         malformed type right left Operator_eqb negb andb
         convertExpressionToContext TestFilterExpressionConverter].
    unfold bind. rewrite Ha'.
    cbn [convertSymbolToContext symbolMap type append buffer
         new_StringBuilder app b.and b.or].
    rewrite Hw.
    cbn [convertOperandToContext_body b.or
         malformed type right left Operator_eqb negb andb
         convertExpressionToContext TestFilterExpressionConverter].
    unfold bind. rewrite Hb.
    cbn [convertSymbolToContext symbolMap type append buffer b.and b.or].
    rewrite Hc. cbn [buffer]. subst cat.
    rewrite !concat_empty_app, Ea'. cbn [String.concat].
    rewrite !string_app_assoc. reflexivity.
  - cbn [convertOperandToContext convertOperandToContext_body b.or
         malformed type right left Operator_eqb negb andb
         convertExpressionToContext TestFilterExpressionConverter].
    unfold bind. rewrite Hw.
    cbn [convertOperandToContext_body b.and
         malformed type right left Operator_eqb negb andb
         convertExpressionToContext TestFilterExpressionConverter].
    unfold bind. rewrite Ha.
    cbn [convertSymbolToContext symbolMap type append buffer
         new_StringBuilder app b.and b.or].
    rewrite Hb.
    cbn [convertSymbolToContext symbolMap type append buffer b.and b.or].
    rewrite Hc'. cbn [buffer]. subst cat.
    rewrite !concat_empty_app, Ec'. cbn [String.concat].
    rewrite !string_app_assoc. reflexivity.
Qed.

Lemma convertExpression_nesting_witness :
  convertExpression TestFilterExpressionConverter 4
    (b.and (b.eq "a" (Single (Num 1)))
           (b.or (b.eq "b" (Single (Num 2))) (b.eq "c" (Single (Num 3)))))
  = convertExpression TestFilterExpressionConverter 4
      (b.or (b.and (b.eq "a" (Single (Num 1))) (b.eq "b" (Single (Num 2))))
            (b.eq "c" (Single (Num 3)))).
Proof.
  destruct (convertExpression_nesting 2
              (b.eq "a" (Single (Num 1))) (b.eq "b" (Single (Num 2)))
              (b.eq "c" (Single (Num 3))) _ _ _ eq_refl eq_refl eq_refl)
    as [H1 H2].
  exact (eq_trans H1 (eq_sym H2)).
Defined.

(** X19.  The symbol table tells the operators apart, [NOT] aside: two
    tags other than [NOT] with the same symbol are the same tag, while
    [NOT] shares the symbol of [NIN]. *)
Theorem symbolMap_injective (t1 t2 : Operator) :
  t1 <> NOT -> t2 <> NOT -> symbolMap t1 = symbolMap t2 -> t1 = t2.
Proof.
  intros H1 H2 H.
  destruct t1; destruct t2; try reflexivity; try congruence;
    simpl in H; discriminate.
Qed.

Lemma symbolMap_injective_witness : GTE = GTE.
Proof.
  apply (symbolMap_injective GTE GTE); [discriminate | discriminate |].
  reflexivity.
Defined.

(** The operands assembled with the builder from truthy values. *)
Inductive Built : Operand -> Prop :=
| Built_comparison (m : string -> FilterValue -> Expression) (op : Operator)
                   (key : string) (v : FilterValue) :
    In (m, op) comparisonMethods -> truthy v = true ->
    Built (OExpression (m key v))
| Built_in (key : string) (xs : list Scalar) :
    Built (OExpression (b.in_ key xs))
| Built_nin (key : string) (xs : list Scalar) :
    Built (OExpression (b.nin key xs))
| Built_and (l r : Operand) :
    Built l -> Built r -> Built (OExpression (b.and l r))
| Built_or (l r : Operand) :
    Built l -> Built r -> Built (OExpression (b.or l r))
| Built_group (e : Expression) :
    Built (OExpression e) -> Built (OGroup (b.group e))
| Built_not (e : Expression) :
    Built (OExpression e) -> Built (OExpression (b.not e)).

Lemma Built_wellFormed (o : Operand) : Built o -> wellFormed o = true.
Proof.
  induction 1 as [m op key v Hm Hv|key xs|key xs|l r _ IHl _ IHr
                 |l r _ IHl _ IHr|e _ IH|e _ IH].
  - simpl in Hm.
    destruct Hm as [H|[H|[H|[H|[H|[H|[]]]]]]]; injection H as <- <-;
      cbv [b.eq b.ne b.gt b.gte b.lt b.lte]; rewrite Hv; reflexivity.
  - reflexivity.
  - reflexivity.
  - simpl. rewrite IHl, IHr. reflexivity.
  - simpl. rewrite IHl, IHr. reflexivity.
  - exact IH.
  - exact IH.
Qed.

(** X20.  Every expression assembled with the builder -- comparisons of
    truthy values, [in] and [nin] of any array, [and], [or], [group] and
    [not] of such -- converts to a string in the reference dialect, with
    every budget from its depth on. *)
Theorem convertExpression_Built (expression : Expression) (k : nat) :
  Built (OExpression expression) ->
  exists s, convertExpression TestFilterExpressionConverter
                              (depth expression + k) expression
            = Return s.
Proof.
  intros Hb. apply Built_wellFormed in Hb.
  unfold convertExpression, convertOperand.
  destruct (returns_convertOperandToContext_Test (depth expression + k)
              expression Hb (Nat.le_add_r _ _) new_StringBuilder)
    as [sb' ->].
  eauto.
Qed.

Lemma convertExpression_Built_witness :
  exists s, convertExpression TestFilterExpressionConverter
              (depth (b.not (b.and (b.in_ "a" [])
                                   (b.group (b.gt "b" (Single (Num 1))))))
               + 0)
              (b.not (b.and (b.in_ "a" [])
                            (b.group (b.gt "b" (Single (Num 1))))))
            = Return s.
Proof.
  apply convertExpression_Built.
  apply Built_not, Built_and.
  - apply Built_in.
  - apply Built_group.
    apply (Built_comparison b.gt GT); [simpl; auto 10 | reflexivity].
Defined.
